(** * RocchioClassifier: a shallow embedding of [RocchioClassifier.py]

    The module is a centroid ("Rocchio") classifier over n-gram counts.
    Conventions of the embedding:

    - a Python [float] is a real number ([R]); the [int]s of the module
      count occurrences or index documents and are [nat].  The points
      where the interpreter raises instead of returning a number
      ([math.log] of a non-positive argument, [math.sqrt] of a negative one,
      division by zero) are explicit: such operations live in [result];
    - a [dict] is a [gmap], a [set] a [gset]; iterating a dict visits
      [map_to_list], and every loop of the module that folds over a dict
      either sums reals or raises the same exception whatever the order;
    - the three dicts keyed by the n-gram order [(1,2,3)] are [by_order]
      triples;
    - the class attributes behind [set_params]/[get_params] are a [params]
      value threaded through the functions that read them;
    - [self] is a [classifier] record; a method that mutates [self] and may
      raise returns the mutated object together with its [result]. *)

From Stdlib Require Import Ascii Reals Lra.
From stdpp Require Import gmap strings list fin_maps.

(** ** Exceptions and the [result] monad *)

Inductive exn : Set :=
| ValueError
| ZeroDivisionError
| KeyError.

Inductive result (A : Type) : Type :=
| Ok (a : A)
| Raise (e : exn).
Arguments Ok {A} _.
Arguments Raise {A} _.

Definition raise {A} (e : exn) : result A := Raise e.

#[global] Instance result_ret : MRet result := λ A a, Ok a.
#[global] Instance result_bind : MBind result := λ A B k m,
  match m with
  | Ok a => k a
  | Raise e => Raise e
  end.

(** A [for] loop whose body may raise, threading the accumulator. *)
Fixpoint foldM {A B} (f : B → A → result B) (l : list A) (b : B) : result B :=
  match l with
  | [] => mret b
  | a :: l' => b' ← f b a; foldM f l' b'
  end.

(** A dict comprehension [dict((k, f(k, v)) for k, v in m.items())]. *)
Definition dict_mapM {K} `{Countable K} {A B}
    (f : K → A → result B) (m : gmap K A) : result (gmap K B) :=
  foldM (λ acc kv, b ← f kv.1 kv.2; mret (<[kv.1 := b]> acc))
        (map_to_list m) ∅.

(** ** Numbers *)

Module Num.

Local Open Scope R_scope.

Definition EPSILON : R := 1 / 1000000.

(** [math.log(x)] : natural logarithm, [ValueError] on [x <= 0]. *)
Definition log (x : R) : result R :=
  if Rle_dec x 0 then raise ValueError else mret (ln x).

(** [math.log(x, 10)]: computed as [log(x) / log(10)]. *)
Definition log10 (x : R) : result R :=
  if Rle_dec x 0 then raise ValueError else mret (ln x / ln 10).

(** [math.sqrt(x)], [ValueError] on [x < 0]. *)
Definition sqrt (x : R) : result R :=
  if Rlt_dec x 0 then raise ValueError else mret (R_sqrt.sqrt x).

(** True division (the module imports [division] from [__future__]). *)
Definition div (x y : R) : result R :=
  if Req_dec_T y 0 then raise ZeroDivisionError else mret (x / y).

(** [x > y] as a Python [bool]. *)
Definition gtb (x y : R) : bool :=
  if Rlt_dec y x then true else false.

(** [sum(l)]: the items added, left to right, to the start value [0]. *)
Definition sum (l : list R) : R := foldl Rplus 0 l.

End Num.

(** ** Hyper-parameters: the three class attributes *)

Record params : Type := Params {
  weight_bigrams : R;
  weight_trigrams : R;
  threshold : R
}.

(** The values the class body assigns. *)
Definition default_params : params :=
  {| weight_bigrams := 20318 / 10000;
     weight_trigrams := 44337 / 10000;
     threshold := 19442 / 10000 |}%R.

Definition set_params (weight_bigrams weight_trigrams threshold : R)
    (_ : params) : params :=
  {| weight_bigrams := weight_bigrams;
     weight_trigrams := weight_trigrams;
     threshold := threshold |}.

Definition get_params (P : params) : R * R * R :=
  (weight_bigrams P, weight_trigrams P, threshold P).

Definition get_param_names : string * string * string :=
  ("weight_bigrams", "weight_trigrams", "threshold")%string.

(** Attribute lookup [getattr(RocchioClassifier, name)] for the three
    hyper-parameters. *)
Definition getattr (P : params) (name : string) : option R :=
  if decide (name = "weight_bigrams"%string) then Some (weight_bigrams P)
  else if decide (name = "weight_trigrams"%string) then Some (weight_trigrams P)
  else if decide (name = "threshold"%string) then Some (threshold P)
  else None.

(** A Python 3-tuple seen as a sequence. *)
Definition tuple3_to_list {A} (t : A * A * A) : list A :=
  let '(a, b, c) := t in [a; b; c].

(** ** Dicts keyed by the n-gram order *)

Record by_order (A : Type) : Type := ByOrder {
  order1 : A;
  order2 : A;
  order3 : A
}.
Arguments ByOrder {A} _ _ _.
Arguments order1 {A} _.
Arguments order2 {A} _.
Arguments order3 {A} _.

Inductive order : Set := O1 | O2 | O3.

#[global] Instance order_eq_dec : EqDecision order.
Proof. solve_decision. Defined.

Definition order_to_nat (n : order) : nat :=
  match n with O1 => 1 | O2 => 2 | O3 => 3 end.

(** The tuple [(1,2,3)] every loop over the orders runs through. *)
Definition orders : list order := [O1; O2; O3].

Definition at_order {A} (d : by_order A) (n : order) : A :=
  match n with
  | O1 => order1 d
  | O2 => order2 d
  | O3 => order3 d
  end.

Definition set_order {A} (n : order) (a : A) (d : by_order A) : by_order A :=
  match n with
  | O1 => ByOrder a (order2 d) (order3 d)
  | O2 => ByOrder (order1 d) a (order3 d)
  | O3 => ByOrder (order1 d) (order2 d) a
  end.

(** [dict((n, f(n)) for n in (1,2,3))] *)
Definition order_init {A} (f : order → A) : by_order A :=
  ByOrder (f O1) (f O2) (f O3).

(** ** [get_weights] *)

Definition get_weights (P : params) : result (by_order R) :=
  let weights := ByOrder 1%R (weight_bigrams P) (weight_trigrams P) in
  let total := Num.sum [order1 weights; order2 weights; order3 weights] in
  w1 ← Num.div (order1 weights) total;
  w2 ← Num.div (order2 weights) total;
  w3 ← Num.div (order3 weights) total;
  mret (ByOrder w1 w2 w3).

(** [dict((n, f(n)) for n in (1,2,3))] with an [f] that may raise. *)
Definition order_initM {A} (f : order → result A) : result (by_order A) :=
  a ← f O1;
  b ← f O2;
  c ← f O3;
  mret (ByOrder a b c).

(** [d[k]] on a dict. *)
Definition subscript {K} `{Countable K} {A} (d : gmap K A) (k : K) : result A :=
  match d !! k with
  | Some a => mret a
  | None => raise KeyError
  end.

(** ** Terms and documents

    An n-gram is the tuple of its words; a document is the list of the
    n-grams of one message at one order. *)

Abbreviation term := (list string).
Abbreviation document := (list (list string)).

(** ** The TF-IDF engine *)

(** The loop body of [build_inv_index]:
    [if not word in inv_index.keys(): inv_index[word] = {}]. *)
Definition inv_index_add (inv_index : gmap term (gmap nat nat)) (word : term)
    : gmap term (gmap nat nat) :=
  match inv_index !! word with
  | Some _ => inv_index
  | None => <[word := ∅]> inv_index
  end.

Definition build_inv_index (documents : list document)
    : gmap term (gmap nat nat) :=
  foldl (λ inv_index '(i, doc), foldl inv_index_add inv_index doc)
        ∅ (imap pair documents).

(** What the docstring of [build_inv_index] says the index is:
    [inv_index[word][i] = number of occurences of word in documents[i]]. *)
Definition documented_count (documents : list document) (word : term) (i : nat)
    : option nat :=
  doc ← documents !! i;
  let c := length (filter (λ w, w = word) doc) in
  if decide (c = 0) then None else Some c.

(** The inner loop of [compute_tfidf] for one [(doc_idx, word_count)]. *)
Definition tfidf_set (word : term) (idf : R)
    (tfidf : gmap term (gmap nat R)) (entry : nat * nat)
    : result (gmap term (gmap nat R)) :=
  let '(doc_idx, word_count) := entry in
  let tfidf :=
    match tfidf !! word with
    | Some _ => tfidf
    | None => <[word := ∅]> tfidf
    end in
  l ← Num.log10 (INR word_count);
  let tf := (1 + l)%R in
  mret (<[word := <[doc_idx := (tf * idf)%R]> (default ∅ (tfidf !! word))]> tfidf).

(** The outer loop body of [compute_tfidf] for one [word] of the index. *)
Definition tfidf_word (logN : R)
    (tfidf : gmap term (gmap nat R)) (entry : term * gmap nat nat)
    : result (gmap term (gmap nat R)) :=
  let '(word, word_doc_counts) := entry in
  l ← Num.log10 (INR (size word_doc_counts));
  let idf := (logN - l)%R in
  foldM (tfidf_set word idf) (map_to_list word_doc_counts) tfidf.

(** [tfidf_l2norm2[doc_idx] = tfidf_l2norm2.get(doc_idx, 0.0) + val ** 2] *)
Definition l2norm2_add (acc : gmap nat R) (entry : nat * R) : gmap nat R :=
  let '(doc_idx, val) := entry in
  <[doc_idx := (default 0 (acc !! doc_idx) + val ^ 2)%R]> acc.

Definition compute_tfidf (documents : list document)
    : result (gmap term (gmap nat R) * gmap nat R) :=
  let inv_index := build_inv_index documents in
  logN ← Num.log10 (INR (length documents));
  tfidf ← foldM (tfidf_word logN) (map_to_list inv_index) ∅;
  let tfidf_l2norm2 :=
    foldl (λ acc '(word, doc_indexes),
             foldl l2norm2_add acc (map_to_list doc_indexes))
          ∅ (map_to_list tfidf) in
  tfidf_l2norm ← dict_mapM (λ _ val, Num.sqrt val) tfidf_l2norm2;
  mret (tfidf, tfidf_l2norm).

(** ** The centroid builder *)

(** [sum(d)] on a dict adds up its keys. *)
Definition sum_keys {A} (d : gmap nat A) : nat :=
  foldl Nat.add 0 (map_to_list d).*1.

(** The returned comprehension of [get_centroid],
    [dict((word, sum(tfidf[word])/N) for word in tfidf)]. *)
Definition centroid_of (tfidf : gmap term (gmap nat R)) (N : nat)
    : result (gmap term R) :=
  dict_mapM (λ _ row, Num.div (INR (sum_keys row)) (INR N)) tfidf.

(** The last two statements of [get_centroid] that are reached, on the
    table [compute_tfidf] returned: [N = len(documents)], then the
    comprehension over that [N]. *)
Definition centroid_average (tfidf : gmap term (gmap nat R))
    (documents : list document) : result (gmap term R) :=
  let N := length documents in
  centroid_of tfidf N.

(** The statements after the [return] are never reached and are left out;
    [vocabulary] is read only there. *)
Definition get_centroid (vocabulary : gset term) (documents : list document)
    : result (gmap term R) :=
  '(tfidf, tfidf_l2norm) ← compute_tfidf documents;
  centroid_average tfidf documents.

(** ** Query vectors and the distance *)

Definition count_word (query_vec : gmap term nat) (word : term) : gmap term nat :=
  <[word := default 0 (query_vec !! word) + 1]> query_vec.

Definition get_query_vec (ngrams : document) : result (gmap term R) :=
  let query_vec := foldl count_word ∅ ngrams in
  dict_mapM (λ _ c, l ← Num.log10 (INR c); mret (l + 1)%R) query_vec.

Definition get_distance (centroid query_vec : gmap term R) : result R :=
  let centroid_vec : gmap term R :=
    map_imap (λ word _, Some (default 0%R (centroid !! word))) query_vec in
  products ← mapM (λ '(word, q), c ← subscript centroid_vec word;
                                  mret (q * c)%R)
                  (map_to_list query_vec);
  mret (Num.sum products).

(** ** The tokenizer, as the specification describes it

    [preprocessing] is imported by the module and is not part of it.  The
    classifier below takes its two functions as parameters; the definitions
    here instantiate them in examples. *)

(** Modelled from the spec: [preprocessing.get_ngrams(n, words)] is missing;
    it yields the overlapping n-grams of order [n] over the token sequence,
    and nothing when [len(words) < n]. *)
Fixpoint sliding_ngrams (n : nat) (words : list string) : document :=
  match words with
  | [] => []
  | _ :: rest =>
      if decide (n ≤ length words)
      then take n words :: sliding_ngrams n rest
      else []
  end.

(** Modelled from the spec: [preprocessing.extract_words(text)] is missing;
    it yields a possibly empty sequence of normalized word tokens.  Here:
    the maximal runs of characters other than the space. *)
Fixpoint split_spaces (text : string) (cur : string) : list string :=
  match text with
  | EmptyString => if decide (cur = EmptyString) then [] else [cur]
  | String c rest =>
      if decide (c = " "%char)
      then (if decide (cur = EmptyString) then [] else [cur])
             ++ split_spaces rest EmptyString
      else split_spaces rest (cur +:+ String c EmptyString)
  end.

(** The tokenizer built on it, standing for [extract_words] in examples. *)
Definition space_words (text : string) : list string :=
  split_spaces text EmptyString.

(** ** The classifier object *)

Record classifier : Type := Classifier {
  pos_documents : by_order (list document);
  neg_documents : by_order (list document);
  vocab : by_order (gset term);
  pos_centroid : by_order (gmap term R);
  neg_centroid : by_order (gmap term R)
}.

(** The attributes [__init__] assigns before it calls [train]. *)
Definition fresh : classifier :=
  {| pos_documents := order_init (λ _, []);
     neg_documents := order_init (λ _, []);
     vocab := order_init (λ _, ∅);
     pos_centroid := order_init (λ _, ∅);
     neg_centroid := order_init (λ _, ∅) |}.

(** [documents[n].append(ngrams)], where [documents] is an alias of
    [self.pos_documents] or of [self.neg_documents] according to [cls]. *)
Definition documents_append (cls : bool) (n : order) (ngrams : document)
    (self : classifier) : classifier :=
  if cls then
    {| pos_documents :=
         set_order n (at_order (pos_documents self) n ++ [ngrams])
                   (pos_documents self);
       neg_documents := neg_documents self;
       vocab := vocab self;
       pos_centroid := pos_centroid self;
       neg_centroid := neg_centroid self |}
  else
    {| pos_documents := pos_documents self;
       neg_documents :=
         set_order n (at_order (neg_documents self) n ++ [ngrams])
                   (neg_documents self);
       vocab := vocab self;
       pos_centroid := pos_centroid self;
       neg_centroid := neg_centroid self |}.

(** [self.vocab[n].add(g)] *)
Definition vocab_add (n : order) (self : classifier) (g : term) : classifier :=
  {| pos_documents := pos_documents self;
     neg_documents := neg_documents self;
     vocab := set_order n ({[g]} ∪ at_order (vocab self) n) (vocab self);
     pos_centroid := pos_centroid self;
     neg_centroid := neg_centroid self |}.

Definition set_pos_centroid (n : order) (c : gmap term R) (self : classifier)
    : classifier :=
  {| pos_documents := pos_documents self;
     neg_documents := neg_documents self;
     vocab := vocab self;
     pos_centroid := set_order n c (pos_centroid self);
     neg_centroid := neg_centroid self |}.

Definition set_neg_centroid (n : order) (c : gmap term R) (self : classifier)
    : classifier :=
  {| pos_documents := pos_documents self;
     neg_documents := neg_documents self;
     vocab := vocab self;
     pos_centroid := pos_centroid self;
     neg_centroid := set_order n c (neg_centroid self) |}.

(** The documents of a class: [self.pos_documents if cls else
    self.neg_documents]. *)
Definition documents_of (cls : bool) (self : classifier)
    : by_order (list document) :=
  if cls then pos_documents self else neg_documents self.

(** A method that mutates [self] and may raise: the object as the call
    leaves it, and the outcome. *)
Definition method (A : Type) : Type := classifier → classifier * result A.

(** Statements in sequence: the second runs on the object the first left,
    unless the first raised. *)
Definition and_then (m1 m2 : method unit) : method unit :=
  λ self,
    match m1 self with
    | (self', Ok _) => m2 self'
    | (self', Raise e) => (self', Raise e)
    end.

(** [for x in l: body(x)] *)
Fixpoint for_each {A} (l : list A) (body : A → method unit) : method unit :=
  match l with
  | [] => λ self, (self, Ok ())
  | x :: l' => and_then (body x) (for_each l' body)
  end.

(** [self.pos_centroid[n] = get_centroid(self.vocab[n], self.pos_documents[n])] *)
Definition assign_pos_centroid (n : order) : method unit :=
  λ self,
    match get_centroid (at_order (vocab self) n)
                       (at_order (pos_documents self) n) with
    | Ok c => (set_pos_centroid n c self, Ok ())
    | Raise e => (self, Raise e)
    end.

Definition assign_neg_centroid (n : order) : method unit :=
  λ self,
    match get_centroid (at_order (vocab self) n)
                       (at_order (neg_documents self) n) with
    | Ok c => (set_neg_centroid n c self, Ok ())
    | Raise e => (self, Raise e)
    end.

(** The closure [get_weighted_distance] of [classify]; [query_vecs] and
    [weights] are the variables it captures. *)
Definition get_weighted_distance (query_vecs : by_order (gmap term R))
    (weights : by_order R) (centroid : by_order (gmap term R)) : result R :=
  terms ← mapM (λ n, d ← get_distance (at_order centroid n)
                                       (at_order query_vecs n);
                     mret (d * at_order weights n)%R)
               orders;
  mret (Num.sum terms).

Section Classifier.

Variable extract_words : string → list string.
Variable get_ngrams : nat → list string → document.

Definition _add_example (cls : bool) (message : string)
    (self : classifier) : classifier :=
  let words := extract_words message in
  if decide (words = []) then self
  else
    foldl (λ self n,
             let ngrams := get_ngrams (order_to_nat n) words in
             let self := documents_append cls n ngrams self in
             foldl (vocab_add n) self ngrams)
          self orders.

Definition train (training_data : list (bool * string)) : method unit :=
  λ self,
    let self :=
      foldl (λ self '(cls, message), _add_example cls message self)
            self training_data in
    for_each orders
      (λ n, and_then (assign_pos_centroid n) (assign_neg_centroid n))
      self.

Definition __init__ (training_data : list (bool * string))
    : classifier * result unit :=
  train training_data fresh.

(** The keyword argument [detailed] is never read and is left out. *)
Definition classify (P : params) (self : classifier) (message : string)
    : result (bool * R) :=
  let words := extract_words message in
  if decide (words = []) then mret (false, 0%R)
  else
    let ngrams := order_init (λ n, get_ngrams (order_to_nat n) words) in
    query_vecs ← order_initM (λ n, get_query_vec (at_order ngrams n));
    weights ← get_weights P;
    pos_distance ← get_weighted_distance query_vecs weights (pos_centroid self);
    neg_distance ← get_weighted_distance query_vecs weights (neg_centroid self);
    diff ← Num.div (pos_distance + Num.EPSILON)%R
                   (neg_distance + Num.EPSILON)%R;
    l ← Num.log diff;
    mret (Num.gtb diff (threshold P), l).

End Classifier.

(** ** The documented reading of the scorer

    What the scorer is said to compute, written directly: the dot product
    over the terms of the query, a term missing from the centroid counting
    for [0.0]. *)
Definition inner_product_on_query (centroid query_vec : gmap term R) : R :=
  Num.sum ((λ '(word, q), q * default 0 (centroid !! word))%R
             <$> map_to_list query_vec).

(** The query vector, [log10(c) + 1.0] for each term with count [c]. *)
Definition log_count_vec (ngrams : document) : gmap term R :=
  (λ c : nat, ln (INR c) / ln 10 + 1)%R <$> foldl count_word ∅ ngrams.

(** The blend of the three orders, written directly: the sum over the
    orders of the inner product at that order times the order's weight. *)
Definition weighted_inner_product (query_vecs : by_order (gmap term R))
    (weights : by_order R) (centroid : by_order (gmap term R)) : R :=
  Num.sum ((λ n, inner_product_on_query (at_order centroid n)
                                        (at_order query_vecs n)
                 * at_order weights n)%R <$> orders).

(** The classifier after a sequence of [train] calls, whatever each call
    raised. *)
Definition train_all (extract_words : string → list string)
    (get_ngrams : nat → list string → document)
    (calls : list (list (bool * string))) (self : classifier) : classifier :=
  foldl (λ self training_data,
           (train extract_words get_ngrams training_data self).1)
        self calls.

(** ** Parts of the functions above, named for the properties below *)

(** The number of times [word] occurs in [doc]. *)
Definition occurrences (word : term) (doc : document) : nat :=
  length (filter (λ w, w = word) doc).

(** The second half of [compute_tfidf]: the squared weights of a table
    added up per document, and the square roots taken. *)
Definition tfidf_l2norms (tfidf : gmap term (gmap nat R))
    : result (gmap nat R) :=
  let tfidf_l2norm2 :=
    foldl (λ acc '(word, doc_indexes),
             foldl l2norm2_add acc (map_to_list doc_indexes))
          ∅ (map_to_list tfidf) in
  dict_mapM (λ _ val, Num.sqrt val) tfidf_l2norm2.

(** The square of the weight a row holds for document [i], [0] when it
    holds none. *)
Definition square_at (i : nat) (row : gmap nat R) : R :=
  match row !! i with
  | Some v => (v ^ 2)%R
  | None => 0%R
  end.

(** None of the six centroids of the classifier has an entry. *)
Definition no_centroid_entries (self : classifier) : Prop :=
  ∀ n, at_order (pos_centroid self) n = ∅
       ∧ at_order (neg_centroid self) n = ∅.

(** Every n-gram of every stored document is in the vocabulary of its
    order. *)
Definition vocab_covers_documents (self : classifier) : Prop :=
  ∀ (c : bool) (n : order) (doc : document) (g : term),
    doc ∈ at_order (documents_of c self) n → g ∈ doc →
    g ∈ at_order (vocab self) n.

(** * Properties *)

(** ** The partial operations on numbers *)

Lemma log10_pos (x : R) : (0 < x)%R → Num.log10 x = Ok (ln x / ln 10)%R.
Proof.
  intros Hx. unfold Num.log10. destruct (Rle_dec x 0) as [Hle|_]; [lra|done].
Qed.

Lemma log10_nonpos (x : R) : (x <= 0)%R → Num.log10 x = Raise ValueError.
Proof.
  intros Hx. unfold Num.log10. destruct (Rle_dec x 0) as [_|Hn]; [done|lra].
Qed.

Lemma log_pos (x : R) : (0 < x)%R → Num.log x = Ok (ln x).
Proof.
  intros Hx. unfold Num.log. destruct (Rle_dec x 0) as [Hle|_]; [lra|done].
Qed.

Lemma log_nonpos (x : R) : (x <= 0)%R → Num.log x = Raise ValueError.
Proof.
  intros Hx. unfold Num.log. destruct (Rle_dec x 0) as [_|Hn]; [done|lra].
Qed.

Lemma div_nonzero (x y : R) : y ≠ 0%R → Num.div x y = Ok (x / y)%R.
Proof.
  intros Hy. unfold Num.div. destruct (Req_dec_T y 0) as [E|_]; [done|done].
Qed.

Lemma div_zero (x : R) : Num.div x 0 = Raise ZeroDivisionError.
Proof.
  unfold Num.div. destruct (Req_dec_T 0 0) as [_|Hn]; [done|].
  by destruct Hn.
Qed.

Lemma sqrt_nonneg (x : R) : (0 <= x)%R → Num.sqrt x = Ok (R_sqrt.sqrt x).
Proof.
  intros Hx. unfold Num.sqrt. destruct (Rlt_dec x 0) as [Hlt|_]; [lra|done].
Qed.

(** ** Hyper-parameters *)

(** C9: [set_params] followed by [get_params] gives back the triple that was
    set; [get_param_names] has as many entries as [get_params], and its i-th
    entry names the attribute the i-th entry of [get_params] is read from. *)
Theorem set_get_params_round_trip (P : params) (wb wt th : R) :
  get_params (set_params wb wt th P) = (wb, wt, th)
  ∧ length (tuple3_to_list get_param_names)
    = length (tuple3_to_list (get_params (set_params wb wt th P)))
  ∧ ∀ Q : params,
      getattr Q <$> tuple3_to_list get_param_names
      = Some <$> tuple3_to_list (get_params Q).
Proof.
  split; [reflexivity|]. split; [reflexivity|].
  intros Q. reflexivity.
Qed.

(** ** Order weights *)

Lemma get_weights_defined (P : params) :
  (1 + weight_bigrams P + weight_trigrams P ≠ 0)%R →
  get_weights P =
    Ok (ByOrder (1 / (1 + weight_bigrams P + weight_trigrams P))
                (weight_bigrams P / (1 + weight_bigrams P + weight_trigrams P))
                (weight_trigrams P / (1 + weight_bigrams P + weight_trigrams P)))%R.
Proof.
  intros Htot. unfold get_weights. cbn [order1 order2 order3 Num.sum foldl].
  replace (0 + 1 + weight_bigrams P + weight_trigrams P)%R
    with (1 + weight_bigrams P + weight_trigrams P)%R by lra.
  rewrite !div_nonzero by done. reflexivity.
Qed.

Lemma get_weights_undefined (P : params) :
  (1 + weight_bigrams P + weight_trigrams P = 0)%R →
  get_weights P = Raise ZeroDivisionError.
Proof.
  intros Htot. unfold get_weights. cbn [order1 order2 order3 Num.sum foldl].
  replace (0 + 1 + weight_bigrams P + weight_trigrams P)%R with 0%R by lra.
  rewrite (div_zero 1). reflexivity.
Qed.

(** C8, as stated, fails: with bigram weight [-1] and trigram weight [0] the
    raw weights add up to zero and [get_weights] raises. *)
Lemma get_weights_zero_total :
  get_weights (set_params (-1) 0 1 default_params) = Raise ZeroDivisionError
  ∧ ¬ ∃ w : by_order R,
        get_weights (set_params (-1) 0 1 default_params) = Ok w
        ∧ (order1 w + order2 w + order3 w = 1)%R.
Proof.
  assert (H : get_weights (set_params (-1) 0 1 default_params)
              = Raise ZeroDivisionError).
  { apply get_weights_undefined. cbn. lra. }
  split; [exact H|]. intros (w & Hw & _). rewrite H in Hw. discriminate.
Qed.

(** C8, amended: whenever the raw weights [1.0], bigram weight, trigram
    weight do not add up to zero, [get_weights] returns each of them divided
    by their sum, and the three returned weights add up to [1]. *)
Theorem get_weights_normalized (P : params) :
  (1 + weight_bigrams P + weight_trigrams P ≠ 0)%R →
  ∃ w : by_order R,
    get_weights P = Ok w
    ∧ order1 w = (1 / (1 + weight_bigrams P + weight_trigrams P))%R
    ∧ order2 w = (weight_bigrams P / (1 + weight_bigrams P + weight_trigrams P))%R
    ∧ order3 w = (weight_trigrams P / (1 + weight_bigrams P + weight_trigrams P))%R
    ∧ (order1 w + order2 w + order3 w = 1)%R.
Proof.
  intros Htot. eexists. split; [by apply get_weights_defined|].
  cbn [order1 order2 order3]. repeat split. by field.
Qed.

Lemma get_weights_normalized_default :
  (1 + weight_bigrams default_params + weight_trigrams default_params ≠ 0)%R
  ∧ ∃ w : by_order R,
      get_weights default_params = Ok w
      ∧ order1 w = (1 / (1 + weight_bigrams default_params
                         + weight_trigrams default_params))%R
      ∧ order2 w = (weight_bigrams default_params
                    / (1 + weight_bigrams default_params
                       + weight_trigrams default_params))%R
      ∧ order3 w = (weight_trigrams default_params
                    / (1 + weight_bigrams default_params
                       + weight_trigrams default_params))%R
      ∧ (order1 w + order2 w + order3 w = 1)%R.
Proof.
  assert (H : (1 + weight_bigrams default_params
               + weight_trigrams default_params ≠ 0)%R) by (cbn; lra).
  split; [exact H|]. exact (get_weights_normalized default_params H).
Defined.

(** ** Loops and comprehensions that cannot raise *)

(** Run the binds whose left-hand side is a known outcome. *)
Ltac result_step := cbn [mbind mret result_bind result_ret].

Lemma bind_ok {A B} (a : A) (k : A → result B) : (Ok a ≫= k) = k a.
Proof. reflexivity. Qed.

Lemma bind_raise {A B} (e : exn) (k : A → result B) : (Raise e ≫= k) = Raise e.
Proof. reflexivity. Qed.

Lemma mapM_ok {A B} (f : A → result B) (g : A → B) (l : list A) :
  (∀ x, x ∈ l → f x = Ok (g x)) → mapM f l = Ok (g <$> l).
Proof.
  induction l as [|x l IH]; intros Hf; [reflexivity|].
  cbn. rewrite (Hf x) by left. cbn.
  rewrite IH by (intros y Hy; apply Hf; by right). reflexivity.
Qed.

Lemma foldM_ok {A B} (f : B → A → result B) (g : B → A → B)
    (l : list A) (b : B) :
  (∀ b' x, x ∈ l → f b' x = Ok (g b' x)) → foldM f l b = Ok (foldl g b l).
Proof.
  revert b. induction l as [|x l IH]; intros b Hf; [reflexivity|].
  cbn. rewrite (Hf b x) by left. cbn.
  apply IH. intros b' y Hy. apply Hf. by right.
Qed.

Lemma foldM_raise_head {A B} (f : B → A → result B) (e : exn)
    (x : A) (l : list A) (b : B) :
  f b x = Raise e → foldM f (x :: l) b = Raise e.
Proof. intros Hf. cbn. by rewrite Hf. Qed.

Lemma foldl_insert_list_to_map {K} `{Countable K} {A B} (g : A → B)
    (l : list (K * A)) (acc : gmap K B) :
  NoDup l.*1 →
  foldl (λ acc kv, <[kv.1 := g kv.2]> acc) acc l
  = list_to_map (prod_map Datatypes.id g <$> l) ∪ acc.
Proof.
  revert acc. induction l as [|[k a] l IH]; intros acc Hnd.
  - cbn. by rewrite (left_id_L ∅ (∪)).
  - apply NoDup_cons in Hnd as [Hk Hnd]. cbn. rewrite IH by done.
    rewrite <-insert_union_l, <-insert_union_r; [done|].
    apply not_elem_of_list_to_map_1.
    rewrite <-list_fmap_compose.
    by replace (fst ∘ prod_map Datatypes.id g) with (@fst K A) by done.
Qed.

Lemma dict_mapM_ok {K} `{Countable K} {A B} (f : K → A → result B)
    (g : A → B) (m : gmap K A) :
  (∀ k a, m !! k = Some a → f k a = Ok (g a)) →
  dict_mapM f m = Ok (g <$> m).
Proof.
  intros Hf. unfold dict_mapM.
  rewrite (foldM_ok _ (λ acc kv, <[kv.1 := g kv.2]> acc)).
  - rewrite foldl_insert_list_to_map by apply NoDup_fst_map_to_list.
    rewrite (right_id_L ∅ (∪)), list_to_map_fmap, list_to_map_to_list.
    reflexivity.
  - intros acc [k a] Hin. apply elem_of_map_to_list in Hin.
    cbn. by rewrite (Hf k a Hin).
Qed.

Lemma dict_mapM_empty {K} `{Countable K} {A B} (f : K → A → result B) :
  dict_mapM f (∅ : gmap K A) = Ok ∅.
Proof. unfold dict_mapM. by rewrite map_to_list_empty. Qed.

(** ** Sums *)

Lemma foldl_Rplus (a : R) (l : list R) :
  foldl Rplus a l = (a + foldr Rplus 0 l)%R.
Proof.
  revert a. induction l as [|x l IH]; intros a; cbn; [lra|].
  rewrite IH. lra.
Qed.

Lemma sum_cons (x : R) (l : list R) : Num.sum (x :: l) = (x + Num.sum l)%R.
Proof. unfold Num.sum. cbn. rewrite (foldl_Rplus (0 + x)), (foldl_Rplus 0). lra. Qed.

Lemma sum_nil : Num.sum [] = 0%R.
Proof. reflexivity. Qed.

Lemma sum_scale (k : R) (l : list R) :
  Num.sum (Rmult k <$> l) = (k * Num.sum l)%R.
Proof.
  induction l as [|x l IH]; [rewrite sum_nil; cbn; lra|].
  rewrite fmap_cons, !sum_cons, IH. lra.
Qed.

Lemma sum_zeros (l : list R) : Forall (λ x, x = 0%R) l → Num.sum l = 0%R.
Proof.
  induction 1 as [|x l Hx _ IH]; [done|].
  rewrite sum_cons, IH, Hx. lra.
Qed.

(** ** The scorer *)

Lemma get_distance_ok (centroid query_vec : gmap term R) :
  get_distance centroid query_vec
  = Ok (inner_product_on_query centroid query_vec).
Proof.
  unfold get_distance, inner_product_on_query.
  rewrite (mapM_ok _ (λ '(word, q), q * default 0 (centroid !! word))%R).
  - reflexivity.
  - intros [word q] Hin. apply elem_of_map_to_list in Hin.
    unfold subscript. rewrite map_lookup_imap, Hin. reflexivity.
Qed.

Lemma inner_product_insert_absent (centroid query_vec : gmap term R)
    (word : term) (x : R) :
  query_vec !! word = None →
  inner_product_on_query (<[word := x]> centroid) query_vec
  = inner_product_on_query centroid query_vec.
Proof.
  intros Habs. unfold inner_product_on_query. f_equal.
  apply list_fmap_ext. intros i [w q] Hi.
  assert (Hw : query_vec !! w = Some q).
  { apply elem_of_map_to_list, list_elem_of_lookup. eauto. }
  rewrite lookup_insert_ne; [done|]. intros ->. congruence.
Qed.

Lemma inner_product_scale (centroid query_vec : gmap term R) (k : R) :
  inner_product_on_query centroid (Rmult k <$> query_vec)
  = (k * inner_product_on_query centroid query_vec)%R.
Proof.
  unfold inner_product_on_query.
  rewrite map_to_list_fmap, <-sum_scale, <-!list_fmap_compose. f_equal.
  apply list_fmap_ext. intros i [w q] _. cbn. lra.
Qed.

Lemma inner_product_empty_centroid (query_vec : gmap term R) :
  inner_product_on_query ∅ query_vec = 0%R.
Proof.
  unfold inner_product_on_query. apply sum_zeros, Forall_fmap, Forall_forall.
  intros [w q] _. cbn. rewrite lookup_empty. cbn. lra.
Qed.

(** C7: [get_distance] always returns, and what it returns is the sum, over
    the terms of the query vector, of [query_vec[term]] times
    [centroid.get(term, 0.0)].  It is a raw inner product: an entry of the
    centroid for a term the query lacks changes nothing, and scaling the
    query by [k] scales the result by [k], so no norm is divided out. *)
Theorem get_distance_inner_product (centroid query_vec : gmap term R) :
  get_distance centroid query_vec
  = Ok (Num.sum ((λ '(word, q), q * default 0 (centroid !! word))%R
                   <$> map_to_list query_vec))
  ∧ (∀ (word : term) (x : R),
       query_vec !! word = None →
       get_distance (<[word := x]> centroid) query_vec
       = get_distance centroid query_vec)
  ∧ (∀ k : R,
       get_distance centroid (Rmult k <$> query_vec)
       = Ok (k * inner_product_on_query centroid query_vec)%R).
Proof.
  split; [apply get_distance_ok|]. split.
  - intros word x Habs.
    by rewrite !get_distance_ok, inner_product_insert_absent.
  - intros k. by rewrite get_distance_ok, inner_product_scale.
Qed.

(** ** The inverted index *)

Lemma inv_index_add_rows (inv_index : gmap term (gmap nat nat)) (word : term) :
  map_Forall (λ _ row, row = ∅) inv_index →
  map_Forall (λ _ row, row = ∅) (inv_index_add inv_index word).
Proof.
  intros Hall. unfold inv_index_add.
  destruct (inv_index !! word) eqn:E; [done|].
  by apply map_Forall_insert_2.
Qed.

Lemma inv_index_add_keeps (inv_index : gmap term (gmap nat nat))
    (word other : term) :
  is_Some (inv_index !! other) →
  is_Some (inv_index_add inv_index word !! other).
Proof.
  intros Hin. unfold inv_index_add.
  destruct (inv_index !! word) eqn:E; [done|].
  destruct (decide (word = other)) as [->|Hne].
  - rewrite lookup_insert_eq. eauto.
  - by rewrite lookup_insert_ne.
Qed.

Lemma inv_index_add_enters (inv_index : gmap term (gmap nat nat)) (word : term) :
  is_Some (inv_index_add inv_index word !! word).
Proof.
  unfold inv_index_add. destruct (inv_index !! word) eqn:E.
  - rewrite E. eauto.
  - rewrite lookup_insert_eq. eauto.
Qed.

Lemma index_doc_rows (doc : document) (inv_index : gmap term (gmap nat nat)) :
  map_Forall (λ _ row, row = ∅) inv_index →
  map_Forall (λ _ row, row = ∅) (foldl inv_index_add inv_index doc).
Proof.
  revert inv_index. induction doc as [|w doc IH]; intros inv Hall; [done|].
  cbn. by apply IH, inv_index_add_rows.
Qed.

Lemma index_doc_keeps (doc : document) (inv_index : gmap term (gmap nat nat))
    (other : term) :
  is_Some (inv_index !! other) →
  is_Some (foldl inv_index_add inv_index doc !! other).
Proof.
  revert inv_index. induction doc as [|w doc IH]; intros inv Hin; [done|].
  cbn. by apply IH, inv_index_add_keeps.
Qed.

Lemma index_doc_enters (doc : document) (inv_index : gmap term (gmap nat nat))
    (word : term) :
  word ∈ doc → is_Some (foldl inv_index_add inv_index doc !! word).
Proof.
  revert inv_index. induction doc as [|w doc IH]; intros inv Hin.
  - by apply elem_of_nil in Hin.
  - cbn. apply elem_of_cons in Hin as [->|Hin].
    + apply index_doc_keeps, inv_index_add_enters.
    + by apply IH.
Qed.

Lemma index_docs_rows (l : list (nat * document))
    (inv_index : gmap term (gmap nat nat)) :
  map_Forall (λ _ row, row = ∅) inv_index →
  map_Forall (λ _ row, row = ∅)
    (foldl (λ inv_index '(i, doc), foldl inv_index_add inv_index doc)
           inv_index l).
Proof.
  revert inv_index. induction l as [|[i doc] l IH]; intros inv Hall; [done|].
  cbn. by apply IH, index_doc_rows.
Qed.

Lemma index_docs_keeps (l : list (nat * document))
    (inv_index : gmap term (gmap nat nat)) (other : term) :
  is_Some (inv_index !! other) →
  is_Some (foldl (λ inv_index '(i, doc), foldl inv_index_add inv_index doc)
                 inv_index l !! other).
Proof.
  revert inv_index. induction l as [|[i doc] l IH]; intros inv Hin; [done|].
  cbn. by apply IH, index_doc_keeps.
Qed.

Lemma index_docs_enters (l : list (nat * document))
    (inv_index : gmap term (gmap nat nat)) (i : nat) (doc : document)
    (word : term) :
  (i, doc) ∈ l → word ∈ doc →
  is_Some (foldl (λ inv_index '(i, doc), foldl inv_index_add inv_index doc)
                 inv_index l !! word).
Proof.
  revert inv_index. induction l as [|[j d] l IH]; intros inv Hin Hw.
  - by apply elem_of_nil in Hin.
  - cbn. apply elem_of_cons in Hin as [[= <- <-]|Hin].
    + by apply index_docs_keeps, index_doc_enters.
    + by apply IH.
Qed.

Lemma index_docs_blank (l : list (nat * document))
    (inv_index : gmap term (gmap nat nat)) :
  Forall (λ p, p.2 = []) l →
  foldl (λ inv_index '(i, doc), foldl inv_index_add inv_index doc)
        inv_index l = inv_index.
Proof.
  induction 1 as [|[i doc] l Hd _ IH]; [done|].
  cbn in Hd. subst doc. cbn. exact IH.
Qed.

(** No row of the index ever receives a count. *)
Lemma build_inv_index_rows (documents : list document) (word : term)
    (row : gmap nat nat) :
  build_inv_index documents !! word = Some row → row = ∅.
Proof.
  intros Hrow. unfold build_inv_index in Hrow.
  eapply (index_docs_rows (imap pair documents) ∅); [|exact Hrow].
  apply map_Forall_empty.
Qed.

(** Every term of every document has a row. *)
Lemma build_inv_index_terms (documents : list document) (doc : document)
    (word : term) :
  doc ∈ documents → word ∈ doc →
  build_inv_index documents !! word = Some ∅.
Proof.
  intros Hdoc Hw.
  apply list_elem_of_lookup in Hdoc as [i Hi].
  destruct (index_docs_enters (imap pair documents) ∅ i doc word)
    as [row Hrow]; [|done|].
  - apply list_elem_of_lookup. exists i.
    by rewrite list_lookup_imap, Hi.
  - fold (build_inv_index documents) in Hrow.
    by rewrite Hrow, (build_inv_index_rows _ _ _ Hrow).
Qed.

Lemma build_inv_index_blank (documents : list document) :
  Forall (λ doc, doc = []) documents → build_inv_index documents = ∅.
Proof.
  intros Hall. unfold build_inv_index. apply index_docs_blank.
  apply Forall_forall. intros [i doc] Hin.
  apply list_elem_of_lookup in Hin as [j Hj].
  rewrite list_lookup_imap in Hj.
  destruct (documents !! j) as [d|] eqn:E; [|done].
  cbn in Hj. injection Hj as <- <-. cbn.
  eapply (proj1 (Forall_forall _ _) Hall), list_elem_of_lookup_2, E.
Qed.

(** ** [compute_tfidf] and [get_centroid]: when they return *)

Lemma compute_tfidf_no_documents : compute_tfidf [] = Raise ValueError.
Proof.
  unfold compute_tfidf. cbn [length INR].
  by rewrite log10_nonpos by lra.
Qed.

Lemma compute_tfidf_some_term (documents : list document) (doc : document) :
  doc ∈ documents → doc ≠ [] → compute_tfidf documents = Raise ValueError.
Proof.
  intros Hdoc Hne. unfold compute_tfidf.
  rewrite log10_pos; cycle 1.
  { apply lt_0_INR. destruct documents; [by apply elem_of_nil in Hdoc|cbn; lia]. }
  cbn.
  destruct doc as [|word doc]; [done|].
  pose proof (build_inv_index_terms documents (word :: doc) word Hdoc
                ltac:(left)) as Hrow.
  destruct (map_to_list (build_inv_index documents)) as [|[w row] l] eqn:E.
  - apply map_to_list_empty_iff in E. rewrite E, lookup_empty in Hrow.
    discriminate.
  - assert (Hin : (w, row) ∈ map_to_list (build_inv_index documents))
      by (rewrite E; left).
    apply elem_of_map_to_list, build_inv_index_rows in Hin. subst row.
    rewrite (foldM_raise_head _ ValueError); [done|].
    cbn. rewrite map_size_empty. cbn [INR].
    by rewrite log10_nonpos by lra.
Qed.

Lemma compute_tfidf_blank (documents : list document) :
  documents ≠ [] → Forall (λ doc, doc = []) documents →
  compute_tfidf documents = Ok (∅, ∅).
Proof.
  intros Hne Hall. unfold compute_tfidf.
  rewrite log10_pos; cycle 1.
  { apply lt_0_INR. destruct documents; [done|cbn; lia]. }
  cbn. rewrite build_inv_index_blank by done.
  rewrite map_to_list_empty. cbn. rewrite map_to_list_empty. cbn.
  rewrite dict_mapM_empty. reflexivity.
Qed.

Lemma get_centroid_no_documents (vocabulary : gset term) :
  get_centroid vocabulary [] = Raise ValueError.
Proof. unfold get_centroid. by rewrite compute_tfidf_no_documents. Qed.

Lemma get_centroid_some_term (vocabulary : gset term)
    (documents : list document) (doc : document) :
  doc ∈ documents → doc ≠ [] →
  get_centroid vocabulary documents = Raise ValueError.
Proof.
  intros Hdoc Hne. unfold get_centroid.
  by rewrite (compute_tfidf_some_term documents doc).
Qed.

Lemma get_centroid_blank (vocabulary : gset term) (documents : list document) :
  documents ≠ [] → Forall (λ doc, doc = []) documents →
  get_centroid vocabulary documents = Ok ∅.
Proof.
  intros Hne Hall. unfold get_centroid.
  rewrite compute_tfidf_blank by done. result_step.
  unfold centroid_average, centroid_of. apply dict_mapM_empty.
Qed.

(** The comprehension [get_centroid] returns divides, for each term of the
    table, the sum of the document indices of its row by [N]. *)
Lemma centroid_of_ok (tfidf : gmap term (gmap nat R)) (N : nat) :
  N ≠ 0 →
  centroid_of tfidf N
  = Ok ((λ row, INR (sum_keys row) / INR N)%R <$> tfidf).
Proof.
  intros HN. unfold centroid_of. apply dict_mapM_ok.
  intros word row _. apply div_nonzero. by apply not_0_INR.
Qed.

(** C1: on the one-document collection [[("a",)]] the index built by
    [build_inv_index] holds an empty row for the term, where its docstring
    promises the count [1] at document [0]; with no count recorded the
    document frequency is [0] and [compute_tfidf] raises on its logarithm. *)
Theorem build_inv_index_drops_counts :
  build_inv_index [[["a"%string]]] = {[ ["a"%string] := ∅ ]}
  ∧ documented_count [[["a"%string]]] ["a"%string] 0 = Some 1
  ∧ compute_tfidf [[["a"%string]]] = Raise ValueError.
Proof.
  split; [by vm_compute|]. split; [by vm_compute|].
  apply (compute_tfidf_some_term _ [["a"%string]]); [left|done].
Qed.

(** C2: on the one-document collection [[("a",)]] (so [N = 1])
    [get_centroid] raises instead of returning a centroid; and on a table
    with weights [x], [y] for a term in documents [0] and [1], the returned
    comprehension yields [(0 + 1) / 2], the document indices added up, not
    [(x + y) / 2]. *)
Theorem get_centroid_raises_on_terms :
  get_centroid ∅ [[["a"%string]]] = Raise ValueError
  ∧ ∀ x y : R,
      centroid_of {[ ["a"%string] := <[0 := x]> {[1 := y]} ]} 2
      = Ok {[ ["a"%string] := (1 / 2)%R ]}.
Proof.
  split.
  - apply (get_centroid_some_term _ _ [["a"%string]]); [left|done].
  - intros x y. rewrite centroid_of_ok by done.
    rewrite map_fmap_singleton.
    replace (sum_keys (<[0 := x]> {[1 := y]})) with 1 by (by vm_compute).
    replace (INR 1 / INR 2)%R with (1 / 2)%R by (cbn; lra).
    reflexivity.
Qed.

(** C6: on the two-document collection [[("a",)], [("a",)]], whose term
    occurs in both documents, [compute_tfidf] raises; no weight, zero or
    other, is computed. *)
Theorem compute_tfidf_raises_on_common_term :
  compute_tfidf [[["a"%string]]; [["a"%string]]] = Raise ValueError
  ∧ ¬ ∃ tfidf l2norm row,
        compute_tfidf [[["a"%string]]; [["a"%string]]] = Ok (tfidf, l2norm)
        ∧ tfidf !! ["a"%string] = Some row
        ∧ row !! 0 = Some 0%R ∧ row !! 1 = Some 0%R.
Proof.
  assert (H : compute_tfidf [[["a"%string]]; [["a"%string]]]
              = Raise ValueError).
  { apply (compute_tfidf_some_term _ [["a"%string]]); [left|done]. }
  split; [exact H|]. intros (tfidf & l2norm & row & Hok & _).
  rewrite H in Hok. discriminate.
Qed.

(** ** The blend of the orders *)

Lemma get_weighted_distance_ok (query_vecs : by_order (gmap term R))
    (weights : by_order R) (centroid : by_order (gmap term R)) :
  get_weighted_distance query_vecs weights centroid
  = Ok (weighted_inner_product query_vecs weights centroid).
Proof.
  unfold get_weighted_distance, weighted_inner_product.
  rewrite (mapM_ok _ (λ n, inner_product_on_query (at_order centroid n)
                             (at_order query_vecs n) * at_order weights n)%R).
  - reflexivity.
  - intros n _. by rewrite get_distance_ok.
Qed.

(** C3, amended: for a class with no documents at an order [get_centroid]
    raises [ValueError]; an empty centroid, which is what the constructor
    installs before training, has distance [0] to every query vector, so
    the weighted distance is the sum of the other orders' terms. *)
Theorem empty_centroid_contributes_nothing (vocabulary : gset term)
    (query_vecs : by_order (gmap term R)) (weights : by_order R)
    (centroid : by_order (gmap term R)) (n : order) :
  get_centroid vocabulary [] = Raise ValueError
  ∧ get_distance ∅ (at_order query_vecs n) = Ok 0%R
  ∧ get_weighted_distance query_vecs weights (set_order n ∅ centroid)
    = Ok (Num.sum
            ((λ m, if decide (m = n) then 0
                   else inner_product_on_query (at_order centroid m)
                                               (at_order query_vecs m)
                        * at_order weights m)%R <$> orders)).
Proof.
  split; [apply get_centroid_no_documents|]. split.
  - by rewrite get_distance_ok, inner_product_empty_centroid.
  - rewrite get_weighted_distance_ok. unfold weighted_inner_product.
    f_equal. destruct n; cbn; repeat case_decide; try congruence;
      rewrite inner_product_empty_centroid; lra.
Qed.

(** ** Query vectors *)

Lemma count_word_positive (ngrams : document) (query_vec : gmap term nat) :
  map_Forall (λ _ c, 0 < c) query_vec →
  map_Forall (λ _ c, 0 < c) (foldl count_word query_vec ngrams).
Proof.
  revert query_vec. induction ngrams as [|w ngrams IH]; intros qv Hall; [done|].
  cbn. apply IH. unfold count_word. apply map_Forall_insert_2; [lia|done].
Qed.

Lemma get_query_vec_ok (ngrams : document) :
  get_query_vec ngrams = Ok (log_count_vec ngrams).
Proof.
  unfold get_query_vec, log_count_vec. apply dict_mapM_ok.
  intros word c Hc.
  apply (count_word_positive ngrams ∅ (map_Forall_empty _)) in Hc.
  rewrite log10_pos by (by apply lt_0_INR). reflexivity.
Qed.

(** ** [classify] *)

Section ClassifyFacts.

Variable extract_words : string → list string.
Variable get_ngrams : nat → list string → document.

Lemma classify_unfold (P : params) (self : classifier) (message : string) :
  extract_words message ≠ [] →
  classify extract_words get_ngrams P self message
  = (let query_vecs :=
       order_init (λ n, log_count_vec
                          (get_ngrams (order_to_nat n)
                                      (extract_words message))) in
     weights ← get_weights P;
     diff ← Num.div
              (weighted_inner_product query_vecs weights (pos_centroid self)
               + Num.EPSILON)%R
              (weighted_inner_product query_vecs weights (neg_centroid self)
               + Num.EPSILON)%R;
     l ← Num.log diff;
     mret (Num.gtb diff (threshold P), l)).
Proof.
  intros Hwords. unfold classify.
  destruct (decide (extract_words message = [])) as [E|_]; [done|].
  unfold order_initM. cbn [at_order order_init order1 order2 order3].
  rewrite !get_query_vec_ok. result_step.
  destruct (get_weights P) as [weights|e]; [|reflexivity].
  result_step.
  rewrite !get_weighted_distance_ok. reflexivity.
Qed.

(** C5: a message from which no word is extracted is classified
    [(False, 0.0)], whatever the classifier holds and whatever the
    hyper-parameters are. *)
Theorem classify_no_words (P : params) (self : classifier)
    (message : string) :
  extract_words message = [] →
  classify extract_words get_ngrams P self message = Ok (false, 0%R).
Proof.
  intros Hwords. unfold classify. rewrite Hwords. reflexivity.
Qed.

(** C4, amended: for a message with at least one word, let [diff] be
    [(pos + ε) / (neg + ε)] with [ε = 1.0e-6], where [pos] and [neg] are
    the weighted distances to the positive and negative centroids.
    Whenever the raw order weights do not add up to zero, [neg + ε] is not
    zero and [diff] is positive, [classify] returns
    [(diff > threshold, ln diff)]. *)
Theorem classify_decision (P : params) (self : classifier)
    (message : string) :
  extract_words message ≠ [] →
  let total := (1 + weight_bigrams P + weight_trigrams P)%R in
  let weights :=
    ByOrder (1 / total)%R (weight_bigrams P / total)%R
            (weight_trigrams P / total)%R in
  let query_vecs :=
    order_init (λ n, log_count_vec
                       (get_ngrams (order_to_nat n)
                                   (extract_words message))) in
  let pos := weighted_inner_product query_vecs weights (pos_centroid self) in
  let neg := weighted_inner_product query_vecs weights (neg_centroid self) in
  let diff := ((pos + Num.EPSILON) / (neg + Num.EPSILON))%R in
  Num.EPSILON = (1 / 1000000)%R
  ∧ (total ≠ 0%R → (neg + Num.EPSILON)%R ≠ 0%R → (0 < diff)%R →
     classify extract_words get_ngrams P self message
     = Ok (Num.gtb diff (threshold P), ln diff)).
Proof.
  intros Hwords total weights query_vecs pos neg diff.
  split; [reflexivity|]. intros Htot Hneg Hdiff.
  rewrite classify_unfold by done.
  rewrite get_weights_defined by done.
  result_step.
  fold total. fold weights. fold query_vecs. fold pos. fold neg.
  rewrite div_nonzero by done. result_step.
  fold diff. rewrite log_pos by done. reflexivity.
Qed.

(** The ways [classify] raises on a message with words. *)
Lemma classify_zero_total (P : params) (self : classifier)
    (message : string) :
  extract_words message ≠ [] →
  (1 + weight_bigrams P + weight_trigrams P = 0)%R →
  classify extract_words get_ngrams P self message
  = Raise ZeroDivisionError.
Proof.
  intros Hwords Htot. rewrite classify_unfold by done.
  by rewrite get_weights_undefined.
Qed.

Lemma classify_zero_denominator (P : params) (self : classifier)
    (message : string) :
  extract_words message ≠ [] →
  let total := (1 + weight_bigrams P + weight_trigrams P)%R in
  let weights :=
    ByOrder (1 / total)%R (weight_bigrams P / total)%R
            (weight_trigrams P / total)%R in
  let query_vecs :=
    order_init (λ n, log_count_vec
                       (get_ngrams (order_to_nat n)
                                   (extract_words message))) in
  total ≠ 0%R →
  (weighted_inner_product query_vecs weights (neg_centroid self)
   + Num.EPSILON = 0)%R →
  classify extract_words get_ngrams P self message
  = Raise ZeroDivisionError.
Proof.
  intros Hwords total weights query_vecs Htot Hneg.
  rewrite classify_unfold by done.
  rewrite get_weights_defined by done. result_step.
  fold total. fold weights. fold query_vecs.
  by rewrite Hneg, div_zero.
Qed.

Lemma classify_nonpositive_ratio (P : params) (self : classifier)
    (message : string) :
  extract_words message ≠ [] →
  let total := (1 + weight_bigrams P + weight_trigrams P)%R in
  let weights :=
    ByOrder (1 / total)%R (weight_bigrams P / total)%R
            (weight_trigrams P / total)%R in
  let query_vecs :=
    order_init (λ n, log_count_vec
                       (get_ngrams (order_to_nat n)
                                   (extract_words message))) in
  let pos := weighted_inner_product query_vecs weights (pos_centroid self) in
  let neg := weighted_inner_product query_vecs weights (neg_centroid self) in
  total ≠ 0%R → (neg + Num.EPSILON)%R ≠ 0%R →
  ((pos + Num.EPSILON) / (neg + Num.EPSILON) <= 0)%R →
  classify extract_words get_ngrams P self message = Raise ValueError.
Proof.
  intros Hwords total weights query_vecs pos neg Htot Hneg Hdiff.
  rewrite classify_unfold by done.
  rewrite get_weights_defined by done. result_step.
  fold total. fold weights. fold query_vecs. fold pos. fold neg.
  rewrite div_nonzero by done. result_step.
  by rewrite log_nonpos.
Qed.

End ClassifyFacts.

Lemma classify_no_words_blank_message :
  classify space_words sliding_ngrams default_params fresh "  "
  = Ok (false, 0%R).
Proof.
  apply (classify_no_words space_words sliding_ngrams default_params fresh "  ").
  by vm_compute.
Defined.

(** C4, as stated, fails: the message ["good"] has one word, and with
    bigram weight [-1] and trigram weight [0] [classify] raises instead of
    returning a pair. *)
Lemma classify_raises_on_zero_total :
  space_words "good" = ["good"%string]
  ∧ classify space_words sliding_ngrams (set_params (-1) 0 1 default_params)
             fresh "good"
    = Raise ZeroDivisionError
  ∧ ¬ ∃ decision score,
        classify space_words sliding_ngrams
                 (set_params (-1) 0 1 default_params) fresh "good"
        = Ok (decision, score).
Proof.
  assert (H : classify space_words sliding_ngrams
                (set_params (-1) 0 1 default_params) fresh "good"
              = Raise ZeroDivisionError).
  { apply classify_zero_total; [by vm_compute|cbn; lra]. }
  split; [by vm_compute|]. split; [exact H|].
  intros (d & sc & Hok). rewrite H in Hok. discriminate.
Qed.

Lemma classify_decision_fresh_good :
  ∃ diff : R,
    classify space_words sliding_ngrams default_params fresh "good"
    = Ok (Num.gtb diff (threshold default_params), ln diff).
Proof.
  eexists.
  refine (proj2 (classify_decision space_words sliding_ngrams default_params
                   fresh "good" _) _ _ _).
  - by vm_compute.
  - cbn. lra.
  - unfold weighted_inner_product. cbn.
    rewrite !inner_product_empty_centroid. unfold Num.EPSILON. lra.
  - unfold weighted_inner_product. cbn.
    rewrite !inner_product_empty_centroid. unfold Num.EPSILON.
    match goal with |- (0 < ?a / ?b)%R => replace (a / b)%R with 1%R end;
      [lra|field].
Defined.

(** ** Training: the document lists *)

Lemma vocab_adds_keep_documents (n : order) (ngrams : document)
    (self : classifier) (cls : bool) :
  documents_of cls (foldl (vocab_add n) self ngrams) = documents_of cls self.
Proof.
  revert self. induction ngrams as [|g ngrams IH]; intros self; [done|].
  cbn. rewrite IH. by destruct cls.
Qed.

Lemma at_set_order {A} (n m : order) (a : A) (d : by_order A) :
  at_order (set_order n a d) m = if decide (m = n) then a else at_order d m.
Proof. by destruct n, m. Qed.

Lemma documents_append_same (cls : bool) (n : order) (ngrams : document)
    (self : classifier) :
  documents_of cls (documents_append cls n ngrams self)
  = set_order n (at_order (documents_of cls self) n ++ [ngrams])
              (documents_of cls self).
Proof. by destruct cls. Qed.

Lemma documents_append_other (cls : bool) (n : order) (ngrams : document)
    (self : classifier) :
  documents_of (negb cls) (documents_append cls n ngrams self)
  = documents_of (negb cls) self.
Proof. by destruct cls. Qed.

Section TrainingFacts.

Variable extract_words : string → list string.
Variable get_ngrams : nat → list string → document.

Lemma add_example_no_words (cls : bool) (message : string)
    (self : classifier) :
  extract_words message = [] →
  _add_example extract_words get_ngrams cls message self = self.
Proof. intros Hwords. unfold _add_example. by rewrite Hwords. Qed.

Lemma add_example_same_class (cls : bool) (message : string)
    (self : classifier) (n : order) :
  extract_words message ≠ [] →
  at_order (documents_of cls
              (_add_example extract_words get_ngrams cls message self)) n
  = at_order (documents_of cls self) n
    ++ [get_ngrams (order_to_nat n) (extract_words message)].
Proof.
  intros Hwords. unfold _add_example.
  destruct (decide (extract_words message = [])) as [E|_]; [done|].
  cbn [foldl orders].
  rewrite !vocab_adds_keep_documents, !documents_append_same,
    !vocab_adds_keep_documents, !documents_append_same,
    !vocab_adds_keep_documents, !documents_append_same.
  by destruct n.
Qed.

Lemma add_example_other_class (cls : bool) (message : string)
    (self : classifier) :
  documents_of (negb cls)
    (_add_example extract_words get_ngrams cls message self)
  = documents_of (negb cls) self.
Proof.
  unfold _add_example.
  destruct (decide (extract_words message = [])) as [E|_]; [done|].
  cbn [foldl orders].
  by rewrite !vocab_adds_keep_documents, !documents_append_other,
    !vocab_adds_keep_documents, !documents_append_other,
    !vocab_adds_keep_documents, !documents_append_other.
Qed.

(** One example changes the length of the three lists of a class by the
    same amount. *)
Lemma add_example_length (cls c : bool) (message : string)
    (self : classifier) (n : order) :
  length (at_order (documents_of c
            (_add_example extract_words get_ngrams cls message self)) n)
  = length (at_order (documents_of c self) n)
    + (if decide (extract_words message = []) then 0
       else if decide (c = cls) then 1 else 0).
Proof.
  destruct (decide (extract_words message = [])) as [E|Hne].
  - rewrite add_example_no_words by done. lia.
  - destruct (decide (c = cls)) as [->|Hc].
    + rewrite add_example_same_class by done.
      rewrite length_app. reflexivity.
    + replace c with (negb cls) by (by destruct c, cls).
      rewrite add_example_other_class. lia.
Qed.



(** Assigning centroids leaves the document lists alone, whether or not
    the assignment raises. *)
Lemma assign_pos_centroid_documents (n : order) (self : classifier)
    (c : bool) :
  documents_of c (assign_pos_centroid n self).1 = documents_of c self.
Proof.
  unfold assign_pos_centroid.
  destruct (get_centroid _ _); by destruct c.
Qed.

Lemma assign_neg_centroid_documents (n : order) (self : classifier)
    (c : bool) :
  documents_of c (assign_neg_centroid n self).1 = documents_of c self.
Proof.
  unfold assign_neg_centroid.
  destruct (get_centroid _ _); by destruct c.
Qed.

Lemma and_then_documents (m1 m2 : method unit) (c : bool) :
  (∀ self, documents_of c (m1 self).1 = documents_of c self) →
  (∀ self, documents_of c (m2 self).1 = documents_of c self) →
  ∀ self, documents_of c (and_then m1 m2 self).1 = documents_of c self.
Proof.
  intros H1 H2 self. unfold and_then.
  specialize (H1 self). destruct (m1 self) as [self' [[]|e]]; cbn in *.
  - by rewrite H2.
  - done.
Qed.

Lemma for_each_documents {A} (l : list A) (body : A → method unit)
    (c : bool) :
  (∀ x self, documents_of c (body x self).1 = documents_of c self) →
  ∀ self, documents_of c (for_each l body self).1 = documents_of c self.
Proof.
  intros Hbody. induction l as [|x l IH]; intros self; [done|].
  cbn [for_each]. by apply and_then_documents.
Qed.

Lemma train_documents (training_data : list (bool * string))
    (self : classifier) (c : bool) :
  documents_of c (train extract_words get_ngrams training_data self).1
  = documents_of c
      (foldl (λ self '(cls, message),
                _add_example extract_words get_ngrams cls message self)
             self training_data).
Proof.
  unfold train. apply for_each_documents. intros n s.
  apply and_then_documents.
  - intros s'. apply assign_pos_centroid_documents.
  - intros s'. apply assign_neg_centroid_documents.
Qed.



End TrainingFacts.






(** ** Training: the centroids *)

Lemma get_centroid_wordful (vocabulary : gset term)
    (documents : list document) :
  Forall (λ doc, doc ≠ []) documents →
  get_centroid vocabulary documents = Raise ValueError.
Proof.
  intros Hall. destruct documents as [|doc documents].
  - apply get_centroid_no_documents.
  - apply Forall_cons in Hall as [Hdoc _].
    apply (get_centroid_some_term _ _ doc); [left|done].
Qed.

Section TrainRaises.

Variable extract_words : string → list string.
Variable get_ngrams : nat → list string → document.
Hypothesis unigrams_of_words :
  ∀ words, words ≠ [] → get_ngrams 1 words ≠ [].

Lemma add_examples_unigrams (training_data : list (bool * string))
    (self : classifier) :
  Forall (λ doc, doc ≠ []) (at_order (pos_documents self) O1) →
  Forall (λ doc, doc ≠ [])
    (at_order (pos_documents
       (foldl (λ self '(cls, message),
                 _add_example extract_words get_ngrams cls message self)
              self training_data)) O1).
Proof.
  revert self. induction training_data as [|[cls message] td IH];
    intros self Hall; [exact Hall|].
  cbn [foldl]. apply IH.
  destruct (decide (extract_words message = [])) as [E|Hne].
  { by rewrite add_example_no_words. }
  destruct cls.
  - change (pos_documents ?s) with (documents_of true s).
    rewrite add_example_same_class by done.
    apply Forall_app. split; [exact Hall|].
    apply Forall_singleton. by apply unigrams_of_words.
  - change (pos_documents ?s) with (documents_of (negb false) s).
    by rewrite add_example_other_class.
Qed.

(** With the index as it is built, training cannot get past the first
    centroid: a class without documents fails on [log10(0)] of the document
    count, a class with documents on [log10(0)] of a document frequency. *)
Lemma train_raises (training_data : list (bool * string))
    (self : classifier) :
  Forall (λ doc, doc ≠ []) (at_order (pos_documents self) O1) →
  (train extract_words get_ngrams training_data self).2 = Raise ValueError.
Proof.
  intros Hall. unfold train.
  pose proof (add_examples_unigrams training_data self Hall) as Hs.
  set (s := foldl _ self training_data) in *.
  cbn [for_each orders]. unfold and_then at 1. unfold and_then at 1.
  unfold assign_pos_centroid at 1.
  by rewrite get_centroid_wordful.
Qed.

Lemma init_raises (training_data : list (bool * string)) :
  (__init__ extract_words get_ngrams training_data).2 = Raise ValueError.
Proof. unfold __init__. apply train_raises. cbn. constructor. Qed.

End TrainRaises.

Lemma sliding_unigrams_of_words (words : list string) :
  words ≠ [] → sliding_ngrams 1 words ≠ [].
Proof.
  destruct words as [|w words]; [done|]. intros _.
  cbn [sliding_ngrams]. case_decide; [done|]. cbn in *. lia.
Qed.

(** C3, as stated, fails: a training set with one negative example and no
    positive one leaves the positive class without documents, and building
    its centroid raises; [get_centroid] on no documents does not return the
    empty centroid. *)
Lemma zero_document_class_raises :
  at_order (pos_documents
              (__init__ space_words sliding_ngrams [(false, "bad"%string)]).1)
           O1 = []
  ∧ (__init__ space_words sliding_ngrams [(false, "bad"%string)]).2
    = Raise ValueError
  ∧ get_centroid ∅ [] = Raise ValueError
  ∧ get_centroid ∅ [] ≠ Ok ∅.
Proof.
  split; [|split; [|split]].
  - change (pos_documents ?s) with (documents_of true s).
    unfold __init__. rewrite train_documents. by vm_compute.
  - apply init_raises, sliding_unigrams_of_words.
  - apply get_centroid_no_documents.
  - rewrite get_centroid_no_documents. discriminate.
Qed.

(** ** The weighting loop on a row that holds counts

    [compute_tfidf] never sees such a row, since [build_inv_index] leaves
    every row empty; these lemmas run its loop body on the index the
    docstring describes. *)

Lemma tfidf_set_ok (word : term) (idf : R) (tfidf : gmap term (gmap nat R))
    (doc_idx word_count : nat) :
  0 < word_count →
  tfidf_set word idf tfidf (doc_idx, word_count)
  = Ok (<[word := <[doc_idx := ((1 + ln (INR word_count) / ln 10) * idf)%R]>
                    (default ∅ (tfidf !! word))]> tfidf).
Proof.
  intros Hc. unfold tfidf_set.
  rewrite log10_pos by (by apply lt_0_INR). result_step.
  destruct (tfidf !! word) as [row|] eqn:E; [by rewrite E|].
  by rewrite lookup_insert_eq, insert_insert_eq.
Qed.

Lemma tfidf_row_ok (word : term) (idf : R) (l : list (nat * nat))
    (tfidf : gmap term (gmap nat R)) :
  Forall (λ kv, 0 < kv.2) l → l ≠ [] →
  foldM (tfidf_set word idf) l tfidf
  = Ok (<[word := foldl (λ row kv,
                    <[kv.1 := ((1 + ln (INR kv.2) / ln 10) * idf)%R]> row)
                  (default ∅ (tfidf !! word)) l]> tfidf).
Proof.
  intros Hall. revert tfidf.
  induction Hall as [|[i c] l Hc Hall IH]; intros tfidf Hne; [done|].
  cbn [foldM]. rewrite tfidf_set_ok by done. result_step.
  destruct l as [|kv l]; [reflexivity|].
  rewrite IH by done.
  by rewrite lookup_insert_eq, insert_insert_eq.
Qed.

Lemma tfidf_word_ok (logN : R) (tfidf : gmap term (gmap nat R))
    (word : term) (row : gmap nat nat) :
  row ≠ ∅ → map_Forall (λ _ c, 0 < c) row → tfidf !! word = None →
  tfidf_word logN tfidf (word, row)
  = Ok (<[word := (λ c : nat, (1 + ln (INR c) / ln 10)
                              * (logN - ln (INR (size row)) / ln 10))%R
                    <$> row]> tfidf).
Proof.
  intros Hrow Hpos Hnew. unfold tfidf_word.
  rewrite log10_pos; cycle 1.
  { apply lt_0_INR. destruct (decide (size row = 0)) as [E|]; [|lia].
    by apply map_size_empty_iff in E. }
  result_step. rewrite tfidf_row_ok.
  - rewrite Hnew. cbn [default].
    rewrite (foldl_insert_list_to_map
               (λ c : nat, (1 + ln (INR c) / ln 10)
                           * (logN - ln (INR (size row)) / ln 10))%R)
      by apply NoDup_fst_map_to_list.
    by rewrite (right_id_L ∅ (∪)), list_to_map_fmap, list_to_map_to_list.
  - apply Forall_forall. intros [i c] Hin.
    apply elem_of_map_to_list in Hin. exact (Hpos i c Hin).
  - intros E. by apply map_to_list_empty_iff in E.
Qed.

(** X5: on a row that records a positive count for each of the [N]
    documents, with [logN = log10 N], every weight the loop of
    [compute_tfidf] stores for the term is [0]. *)
Lemma tfidf_word_common_term (tfidf : gmap term (gmap nat R))
    (word : term) (row : gmap nat nat) :
  row ≠ ∅ → map_Forall (λ _ c, 0 < c) row → tfidf !! word = None →
  tfidf_word (ln (INR (size row)) / ln 10) tfidf (word, row)
  = Ok (<[word := (λ _, 0%R) <$> row]> tfidf).
Proof.
  intros Hrow Hpos Hnew. rewrite tfidf_word_ok by done.
  do 2 f_equal. apply map_fmap_ext. intros i c _. lra.
Qed.

(** * Further properties of the module *)

(** ** The inverted index: its keys *)

Lemma inv_index_add_only (inv_index : gmap term (gmap nat nat))
    (word other : term) :
  is_Some (inv_index_add inv_index word !! other) →
  is_Some (inv_index !! other) ∨ other = word.
Proof.
  unfold inv_index_add. destruct (inv_index !! word) eqn:E; [by left|].
  destruct (decide (word = other)) as [->|Hne]; [by right|].
  rewrite lookup_insert_ne by done. by left.
Qed.

Lemma index_doc_only (doc : document) (inv_index : gmap term (gmap nat nat))
    (other : term) :
  is_Some (foldl inv_index_add inv_index doc !! other) →
  is_Some (inv_index !! other) ∨ other ∈ doc.
Proof.
  revert inv_index. induction doc as [|w doc IH]; intros inv Hin; [by left|].
  cbn in Hin. apply IH in Hin as [Hin|Hin]; [|right; by right].
  apply inv_index_add_only in Hin as [Hin| ->]; [by left|right; left].
Qed.

Lemma index_docs_only (l : list (nat * document))
    (inv_index : gmap term (gmap nat nat)) (other : term) :
  is_Some (foldl (λ inv_index '(i, doc), foldl inv_index_add inv_index doc)
                 inv_index l !! other) →
  is_Some (inv_index !! other) ∨ other ∈ mjoin l.*2.
Proof.
  revert inv_index. induction l as [|[i doc] l IH]; intros inv Hin; [by left|].
  cbn in Hin. apply IH in Hin as [Hin|Hin].
  - apply index_doc_only in Hin as [Hin|Hin]; [by left|].
    right. cbn. apply elem_of_app. by left.
  - right. cbn. apply elem_of_app. by right.
Qed.

Lemma imap_pair_snd {A} (l : list A) : (imap pair l).*2 = l.
Proof.
  apply list_eq. intros i.
  rewrite list_lookup_fmap, list_lookup_imap.
  by destruct (l !! i).
Qed.

(** X1: the index built by [build_inv_index] has a row for exactly the
    terms that occur in some document, and every row is the empty dict. *)
Theorem build_inv_index_lookup (documents : list document) (word : term) :
  build_inv_index documents !! word
  = if decide (word ∈ mjoin documents) then Some ∅ else None.
Proof.
  case_decide as Hin.
  - apply list_elem_of_join in Hin as (doc & Hw & Hdoc).
    by apply (build_inv_index_terms documents doc).
  - destruct (build_inv_index documents !! word) as [row|] eqn:E; [|done].
    destruct Hin. unfold build_inv_index in E.
    destruct (index_docs_only (imap pair documents) ∅ word) as [Hs|Hs].
    + rewrite E. eauto.
    + rewrite lookup_empty in Hs. by destruct Hs.
    + by rewrite imap_pair_snd in Hs.
Qed.

(** ** [compute_tfidf] and [get_centroid]: every outcome *)

Lemma some_document_with_terms (documents : list document) :
  ¬ Forall (λ doc, doc = []) documents →
  ∃ doc, doc ∈ documents ∧ doc ≠ [].
Proof.
  intros Hn. apply not_Forall_Exists in Hn; [|apply _].
  apply Exists_exists in Hn as (doc & Hdoc & Hne). eauto.
Qed.

Lemma compute_tfidf_raises_otherwise (documents : list document) :
  ¬ (documents ≠ [] ∧ Forall (λ doc, doc = []) documents) →
  compute_tfidf documents = Raise ValueError.
Proof.
  intros Hd.
  destruct documents as [|d documents]; [apply compute_tfidf_no_documents|].
  destruct (some_document_with_terms (d :: documents)) as (doc & Hdoc & Hne).
  - intros Hall. by apply Hd.
  - by apply (compute_tfidf_some_term _ doc).
Qed.

Lemma get_centroid_raises_otherwise (vocabulary : gset term)
    (documents : list document) :
  ¬ (documents ≠ [] ∧ Forall (λ doc, doc = []) documents) →
  get_centroid vocabulary documents = Raise ValueError.
Proof.
  intros Hd. unfold get_centroid.
  by rewrite compute_tfidf_raises_otherwise.
Qed.

Lemma get_centroid_only_empty (vocabulary : gset term)
    (documents : list document) (centroid : gmap term R) :
  get_centroid vocabulary documents = Ok centroid → centroid = ∅.
Proof.
  destruct (decide (documents ≠ [] ∧ Forall (λ doc, doc = []) documents))
    as [[Hne Hall]|Hd].
  - rewrite get_centroid_blank by done. by intros [= <-].
  - by rewrite get_centroid_raises_otherwise.
Qed.

(** X2: [compute_tfidf] returns only on a non-empty collection of empty
    documents, and then returns two empty dicts; on no documents, and on
    any collection in which some document has a term, it raises
    [ValueError]. *)
Theorem compute_tfidf_outcome (documents : list document) :
  compute_tfidf documents
  = if decide (documents ≠ [] ∧ Forall (λ doc, doc = []) documents)
    then Ok (∅, ∅) else Raise ValueError.
Proof.
  case_decide as Hd.
  - destruct Hd. by apply compute_tfidf_blank.
  - by apply compute_tfidf_raises_otherwise.
Qed.

(** X3: [get_centroid] never returns a centroid with an entry: it returns
    the empty dict on a non-empty collection of empty documents and raises
    [ValueError] on every other collection, whatever the vocabulary. *)
Theorem get_centroid_outcome (vocabulary : gset term)
    (documents : list document) :
  get_centroid vocabulary documents
  = if decide (documents ≠ [] ∧ Forall (λ doc, doc = []) documents)
    then Ok ∅ else Raise ValueError.
Proof.
  case_decide as Hd.
  - destruct Hd. by apply get_centroid_blank.
  - by apply get_centroid_raises_otherwise.
Qed.

(** ** The weighting loop: every outcome *)

Lemma foldM_raise_member {A B} (f : B → A → result B) (e : exn)
    (l : list A) (b : B) :
  (∀ b' x, x ∈ l → f b' x = Raise e ∨ ∃ b'', f b' x = Ok b'') →
  (∃ x, x ∈ l ∧ ∀ b', f b' x = Raise e) →
  foldM f l b = Raise e.
Proof.
  revert b. induction l as [|y l IH]; intros b Hall (x & Hx & Hraise).
  - by apply elem_of_nil in Hx.
  - cbn. destruct (Hall b y ltac:(left)) as [Hy|[b'' Hy]]; rewrite Hy; [done|].
    result_step. apply IH.
    + intros b' z Hz. apply Hall. by right.
    + apply elem_of_cons in Hx as [->|Hx]; [|by eauto].
      rewrite Hraise in Hy. discriminate.
Qed.

Lemma tfidf_set_zero_count (word : term) (idf : R)
    (tfidf : gmap term (gmap nat R)) (doc_idx : nat) :
  tfidf_set word idf tfidf (doc_idx, 0) = Raise ValueError.
Proof. unfold tfidf_set. cbn [INR]. by rewrite log10_nonpos by lra. Qed.

Lemma tfidf_row_general (word : term) (idf : R) (l : list (nat * nat))
    (tfidf : gmap term (gmap nat R)) :
  Forall (λ kv, 0 < kv.2) l → l ≠ [] → NoDup l.*1 →
  foldM (tfidf_set word idf) l tfidf
  = Ok (<[word := list_to_map
                    (prod_map Datatypes.id
                       (λ c : nat, (1 + ln (INR c) / ln 10) * idf)%R <$> l)
                  ∪ default ∅ (tfidf !! word)]> tfidf).
Proof.
  intros Hall Hne Hnd. rewrite tfidf_row_ok by done.
  by rewrite (foldl_insert_list_to_map
                (λ c : nat, (1 + ln (INR c) / ln 10) * idf)%R).
Qed.

(** X4: the body of the loop of [compute_tfidf] over the terms of the
    index raises [ValueError] when the term's row is empty or holds a zero
    count; on any other row it stores, for each document of the row with
    count [c], the weight [(1 + log10 c) * (logN - log10 df)], [df] being
    the size of the row, and leaves the other terms of the table alone. *)
Theorem tfidf_word_outcome (logN : R) (tfidf : gmap term (gmap nat R))
    (word : term) (row : gmap nat nat) :
  tfidf_word logN tfidf (word, row)
  = if decide (row ≠ ∅ ∧ map_Forall (λ _ c, 0 < c) row)
    then Ok (<[word := ((λ c : nat, (1 + ln (INR c) / ln 10)
                                    * (logN - ln (INR (size row)) / ln 10))%R
                          <$> row)
                       ∪ default ∅ (tfidf !! word)]> tfidf)
    else Raise ValueError.
Proof.
  case_decide as Hd.
  - destruct Hd as [Hne Hpos]. unfold tfidf_word.
    rewrite log10_pos; cycle 1.
    { apply lt_0_INR. destruct (decide (size row = 0)) as [E|]; [|lia].
      by apply map_size_empty_iff in E. }
    result_step. rewrite tfidf_row_general.
    + by rewrite list_to_map_fmap, list_to_map_to_list.
    + apply Forall_forall. intros [i c] Hin.
      apply elem_of_map_to_list in Hin. exact (Hpos i c Hin).
    + intros E. by apply map_to_list_empty_iff in E.
    + apply NoDup_fst_map_to_list.
  - unfold tfidf_word.
    destruct (decide (row = ∅)) as [->|Hne].
    { rewrite map_size_empty. cbn [INR]. by rewrite log10_nonpos by lra. }
    rewrite log10_pos; cycle 1.
    { apply lt_0_INR. destruct (decide (size row = 0)) as [E|]; [|lia].
      by apply map_size_empty_iff in E. }
    result_step.
    assert (Hzero : ∃ i, row !! i = Some 0).
    { destruct (decide (map_Forall (λ _ c, 0 < c) row)) as [Hpos|Hn];
        [by destruct Hd|].
      apply map_not_Forall in Hn; [|apply _].
      destruct Hn as (i & c & Hic & Hc). exists i.
      rewrite Hic. f_equal. lia. }
    destruct Hzero as [i Hi].
    apply foldM_raise_member.
    + intros b' [j c] _. destruct c as [|c].
      * left. apply tfidf_set_zero_count.
      * right. eexists. apply tfidf_set_ok. lia.
    + exists (i, 0). split; [by apply elem_of_map_to_list|].
      intros b'. apply tfidf_set_zero_count.
Qed.

Lemma tfidf_word_common_term_two_documents :
  tfidf_word (ln (INR (size ({[0 := 2; 1 := 1]} : gmap nat nat))) / ln 10)
             ∅ (["a"%string], {[0 := 2; 1 := 1]})
  = Ok (<[ ["a"%string] := (λ _, 0%R) <$> ({[0 := 2; 1 := 1]} : gmap nat nat) ]> ∅).
Proof.
  apply tfidf_word_common_term.
  - intros E. apply (f_equal (λ m : gmap nat nat, m !! 0)) in E.
    by vm_compute in E.
  - apply map_Forall_insert_2; [lia|]. apply map_Forall_singleton. lia.
  - apply lookup_empty.
Defined.

(** ** The comprehension returned by [get_centroid]: every outcome *)

(** X6: the comprehension [get_centroid] returns over a tf-idf table keeps
    the table's terms and gives each the sum of the document indices of
    its row divided by [N]; it raises [ZeroDivisionError] when [N] is zero
    and the table has a term. *)
Theorem centroid_of_outcome (tfidf : gmap term (gmap nat R)) (N : nat) :
  centroid_of tfidf N
  = if decide (N = 0 ∧ tfidf ≠ ∅) then Raise ZeroDivisionError
    else Ok ((λ row, INR (sum_keys row) / INR N)%R <$> tfidf).
Proof.
  case_decide as Hd.
  - destruct Hd as [-> Hne]. unfold centroid_of, dict_mapM.
    destruct (map_to_list tfidf) as [|[w row] l] eqn:E.
    { by apply map_to_list_empty_iff in E. }
    apply foldM_raise_head. cbn. by rewrite div_zero.
  - destruct (decide (N = 0)) as [->|HN]; [|by apply centroid_of_ok].
    destruct (decide (tfidf = ∅)) as [->|Hne]; [|by destruct Hd].
    unfold centroid_of. by rewrite dict_mapM_empty, fmap_empty.
Qed.

(** ** The per-document norms *)

Lemma compute_tfidf_norms (documents : list document) :
  compute_tfidf documents
  = (logN ← Num.log10 (INR (length documents));
     tfidf ← foldM (tfidf_word logN)
                   (map_to_list (build_inv_index documents)) ∅;
     tfidf_l2norm ← tfidf_l2norms tfidf;
     mret (tfidf, tfidf_l2norm)).
Proof. reflexivity. Qed.

Lemma l2norm2_row (l : list (nat * R)) (acc : gmap nat R) (i : nat) :
  NoDup l.*1 →
  default 0%R (foldl l2norm2_add acc l !! i)
  = (default 0 (acc !! i) + square_at i (list_to_map l))%R.
Proof.
  revert acc. induction l as [|[j v] l IH]; intros acc Hnd.
  - unfold square_at. cbn. rewrite lookup_empty. lra.
  - apply NoDup_cons in Hnd as [Hj Hnd]. cbn [foldl]. rewrite IH by done.
    unfold l2norm2_add, square_at. cbn [list_to_map foldr].
    destruct (decide (j = i)) as [->|Hne].
    + rewrite !lookup_insert_eq.
      rewrite (not_elem_of_list_to_map_1 l i) by done. cbn. lra.
    + by rewrite !lookup_insert_ne by done.
Qed.

Lemma l2norm2_table (l : list (term * gmap nat R)) (acc : gmap nat R)
    (i : nat) :
  default 0%R
    (foldl (λ acc '(word, doc_indexes),
              foldl l2norm2_add acc (map_to_list doc_indexes)) acc l !! i)
  = (default 0 (acc !! i)
     + Num.sum ((λ '(word, row), square_at i row) <$> l))%R.
Proof.
  revert acc. induction l as [|[w row] l IH]; intros acc.
  - cbn. lra.
  - cbn [foldl]. rewrite IH, fmap_cons, sum_cons.
    rewrite l2norm2_row by apply NoDup_fst_map_to_list.
    rewrite list_to_map_to_list. lra.
Qed.

Lemma l2norm2_row_nonneg (l : list (nat * R)) (acc : gmap nat R) :
  map_Forall (λ _ x, (0 <= x)%R) acc →
  map_Forall (λ _ x, (0 <= x)%R) (foldl l2norm2_add acc l).
Proof.
  revert acc. induction l as [|[j v] l IH]; intros acc Hall; [done|].
  cbn [foldl]. apply IH. unfold l2norm2_add.
  apply map_Forall_insert_2; [|done].
  pose proof (pow2_ge_0 v).
  destruct (acc !! j) as [x|] eqn:E; cbn.
  - specialize (Hall j x E). cbn in Hall. lra.
  - lra.
Qed.

Lemma l2norm2_table_nonneg (l : list (term * gmap nat R))
    (acc : gmap nat R) :
  map_Forall (λ _ x, (0 <= x)%R) acc →
  map_Forall (λ _ x, (0 <= x)%R)
    (foldl (λ acc '(word, doc_indexes),
              foldl l2norm2_add acc (map_to_list doc_indexes)) acc l).
Proof.
  revert acc. induction l as [|[w row] l IH]; intros acc Hall; [done|].
  cbn [foldl]. by apply IH, l2norm2_row_nonneg.
Qed.

Lemma l2norm2_row_keys (l : list (nat * R)) (acc : gmap nat R) (i : nat) :
  is_Some (foldl l2norm2_add acc l !! i) ↔ is_Some (acc !! i) ∨ i ∈ l.*1.
Proof.
  revert acc. induction l as [|[j v] l IH]; intros acc.
  - cbn. split; [by left|]. intros [H|H]; [done|]. by apply elem_of_nil in H.
  - cbn [foldl]. rewrite IH. unfold l2norm2_add. cbn [fmap list_fmap fst].
    rewrite elem_of_cons. destruct (decide (j = i)) as [->|Hne].
    + rewrite lookup_insert_eq. split; [right; by left|left; eauto].
    + rewrite lookup_insert_ne by done. split; intros [H|H]; try tauto.
      destruct H as [->|H]; [done|tauto].
Qed.

Lemma l2norm2_table_keys (l : list (term * gmap nat R)) (acc : gmap nat R)
    (i : nat) :
  is_Some (foldl (λ acc '(word, doc_indexes),
                    foldl l2norm2_add acc (map_to_list doc_indexes))
                 acc l !! i)
  ↔ is_Some (acc !! i) ∨ ∃ word row, (word, row) ∈ l ∧ is_Some (row !! i).
Proof.
  revert acc. induction l as [|[w row] l IH]; intros acc.
  - cbn. split; [by left|]. intros [H|(w & r & H & _)]; [done|].
    by apply elem_of_nil in H.
  - cbn [foldl]. rewrite IH, l2norm2_row_keys.
    assert (Hrow : i ∈ (map_to_list row).*1 ↔ is_Some (row !! i)).
    { rewrite list_elem_of_fmap. split.
      - intros ([j v] & -> & Hin). apply elem_of_map_to_list in Hin.
        cbn. eauto.
      - intros [v Hv]. exists (i, v). split; [done|].
        by apply elem_of_map_to_list. }
    rewrite Hrow. split.
    + intros [[H|H]|(w' & r' & Hin & Hs)].
      * by left.
      * right. exists w, row. split; [left|done].
      * right. exists w', r'. split; [by right|done].
    + intros [H|(w' & r' & Hin & Hs)]; [by left; left|].
      apply elem_of_cons in Hin as [[= -> ->]|Hin].
      * left. by right.
      * right. eauto.
Qed.

(** X7: the second half of [compute_tfidf] never raises on a tf-idf
    table: it gives a norm to exactly the documents for which some term has
    a weight, and that norm is the square root of the sum, over the terms,
    of the squared weight of the term in the document. *)
Theorem tfidf_l2norms_outcome (tfidf : gmap term (gmap nat R)) :
  ∃ norms : gmap nat R,
    tfidf_l2norms tfidf = Ok norms
    ∧ (∀ i, is_Some (norms !! i)
            ↔ ∃ word row, tfidf !! word = Some row ∧ is_Some (row !! i))
    ∧ (∀ i, default 0%R (norms !! i)
            = R_sqrt.sqrt
                (Num.sum ((λ '(word, row), square_at i row)
                            <$> map_to_list tfidf))).
Proof.
  eexists. split; [|split].
  - unfold tfidf_l2norms. apply (dict_mapM_ok _ R_sqrt.sqrt).
    intros i x Hx. apply sqrt_nonneg.
    exact (l2norm2_table_nonneg (map_to_list tfidf) ∅
             (map_Forall_empty _) i x Hx).
  - intros i. rewrite lookup_fmap, fmap_is_Some, l2norm2_table_keys.
    rewrite lookup_empty. split.
    + intros [H|(w & row & Hin & Hs)]; [by destruct H|].
      apply elem_of_map_to_list in Hin. eauto.
    + intros (w & row & Hin & Hs). right. exists w, row.
      split; [by apply elem_of_map_to_list|done].
  - intros i. rewrite lookup_fmap.
    pose proof (l2norm2_table (map_to_list tfidf) ∅ i) as Hsum.
    rewrite lookup_empty in Hsum. cbn [default] in Hsum.
    rewrite Rplus_0_l in Hsum. rewrite <-Hsum.
    destruct (foldl _ ∅ (map_to_list tfidf) !! i); cbn; [done|].
    by rewrite sqrt_0.
Qed.

(** ** Query vectors: the counts *)

Lemma occurrences_cons (word g : term) (doc : document) :
  occurrences word (g :: doc)
  = if decide (g = word) then S (occurrences word doc)
    else occurrences word doc.
Proof.
  unfold occurrences. rewrite filter_cons. by case_decide.
Qed.

Lemma occurrences_positive (word : term) (doc : document) :
  word ∈ doc ↔ 0 < occurrences word doc.
Proof.
  induction doc as [|g doc IH].
  - split; [intros H; by apply elem_of_nil in H|cbn; lia].
  - rewrite occurrences_cons, elem_of_cons. case_decide as Hg.
    + split; [lia|by left].
    + rewrite IH. split; [intros [->|H]; [done|exact H]|by right].
Qed.

Lemma count_word_lookup (ngrams : document) (query_vec : gmap term nat)
    (word : term) :
  foldl count_word query_vec ngrams !! word
  = if decide (word ∈ ngrams)
    then Some (default 0 (query_vec !! word) + occurrences word ngrams)
    else query_vec !! word.
Proof.
  revert query_vec. induction ngrams as [|g ngrams IH]; intros qv.
  - cbn. case_decide as H; [by apply elem_of_nil in H|done].
  - cbn [foldl]. rewrite IH, occurrences_cons. unfold count_word.
    destruct (decide (g = word)) as [->|Hg].
    + rewrite lookup_insert_eq. cbn [default]. unfold Datatypes.id.
      rewrite (decide_True (P := word ∈ word :: ngrams)) by left.
      case_decide as Hin; [f_equal; lia|].
      apply (not_iff_compat (occurrences_positive word ngrams)) in Hin.
      f_equal. lia.
    + rewrite lookup_insert_ne by done.
      case_decide as Hin.
      * by rewrite (decide_True (P := word ∈ g :: ngrams)) by (by right).
      * rewrite (decide_False (P := word ∈ g :: ngrams)); [done|].
        intros [->|H]%elem_of_cons; [done|by apply Hin].
Qed.

Lemma log_count_vec_lookup (ngrams : document) (word : term) :
  log_count_vec ngrams !! word
  = if decide (word ∈ ngrams)
    then Some (ln (INR (occurrences word ngrams)) / ln 10 + 1)%R
    else None.
Proof.
  unfold log_count_vec.
  rewrite lookup_fmap, count_word_lookup, lookup_empty.
  by case_decide.
Qed.

(** X8: [get_query_vec] always returns; the vector has an entry for exactly
    the terms of the message, and the entry of a term that occurs [c] times
    is [log10(c) + 1.0]. *)
Theorem get_query_vec_counts (ngrams : document) :
  ∃ query_vec : gmap term R,
    get_query_vec ngrams = Ok query_vec
    ∧ ∀ word,
        query_vec !! word
        = if decide (word ∈ ngrams)
          then Some (ln (INR (occurrences word ngrams)) / ln 10 + 1)%R
          else None.
Proof.
  exists (log_count_vec ngrams). split; [apply get_query_vec_ok|].
  apply log_count_vec_lookup.
Qed.

Lemma ln_10_pos : (0 < ln 10)%R.
Proof. rewrite <-ln_1. apply ln_increasing; lra. Qed.

Lemma log10_count_nonneg (c : nat) : 0 < c → (0 <= ln (INR c) / ln 10)%R.
Proof.
  intros Hc. pose proof ln_10_pos.
  assert (1 <= INR c)%R as H1 by (apply (le_INR 1); lia).
  assert (0 <= ln (INR c))%R.
  { rewrite <-ln_1. destruct H1 as [H1| <-]; [|lra].
    left. apply ln_increasing; lra. }
  apply Rmult_le_pos; [done|]. left. by apply Rinv_0_lt_compat.
Qed.

Lemma log10_count_increasing (c1 c2 : nat) :
  0 < c1 → c1 < c2 →
  (ln (INR c1) / ln 10 < ln (INR c2) / ln 10)%R.
Proof.
  intros H1 H2. pose proof ln_10_pos.
  apply Rmult_lt_compat_r; [by apply Rinv_0_lt_compat|].
  apply ln_increasing; [by apply lt_0_INR|by apply lt_INR].
Qed.

(** X9: every entry of a query vector is at least [1.0], and a term that
    occurs more often in one message than in another has a strictly larger
    entry in the query vector of the first. *)
Theorem get_query_vec_monotone (ngrams1 ngrams2 : document) (word : term) :
  word ∈ ngrams1 →
  occurrences word ngrams1 < occurrences word ngrams2 →
  ∃ (query_vec1 query_vec2 : gmap term R) (x1 x2 : R),
    get_query_vec ngrams1 = Ok query_vec1
    ∧ get_query_vec ngrams2 = Ok query_vec2
    ∧ query_vec1 !! word = Some x1
    ∧ query_vec2 !! word = Some x2
    ∧ (1 <= x1 < x2)%R.
Proof.
  intros Hin Hlt.
  pose proof (proj1 (occurrences_positive word ngrams1) Hin) as Hpos.
  assert (Hin2 : word ∈ ngrams2) by (apply occurrences_positive; lia).
  pose proof (log_count_vec_lookup ngrams1 word) as Hl1.
  pose proof (log_count_vec_lookup ngrams2 word) as Hl2.
  rewrite decide_True in Hl1 by done. rewrite decide_True in Hl2 by done.
  exists (log_count_vec ngrams1), (log_count_vec ngrams2). do 2 eexists.
  split; [apply get_query_vec_ok|]. split; [apply get_query_vec_ok|].
  repeat (split; [eassumption|]).
  pose proof (log10_count_nonneg _ Hpos).
  pose proof (log10_count_increasing _ _ Hpos Hlt). lra.
Qed.

Lemma get_query_vec_monotone_repeated_term :
  ∃ (query_vec1 query_vec2 : gmap term R) (x1 x2 : R),
    get_query_vec [["a"%string]] = Ok query_vec1
    ∧ get_query_vec [["a"%string]; ["a"%string]] = Ok query_vec2
    ∧ query_vec1 !! ["a"%string] = Some x1
    ∧ query_vec2 !! ["a"%string] = Some x2
    ∧ (1 <= x1 < x2)%R.
Proof.
  apply (get_query_vec_monotone [["a"%string]]
           [["a"%string]; ["a"%string]] ["a"%string]).
  - left.
  - vm_compute. lia.
Defined.

(** ** The scorer: symmetry and sign *)

Lemma sum_perm (l1 l2 : list R) : l1 ≡ₚ l2 → Num.sum l1 = Num.sum l2.
Proof.
  induction 1 as [|x l1 l2 _ IH|x y l|l1 l2 l3 _ IH1 _ IH2].
  - done.
  - by rewrite !sum_cons, IH.
  - rewrite !sum_cons. lra.
  - by rewrite IH1.
Qed.

Lemma inner_product_empty_query (centroid : gmap term R) :
  inner_product_on_query centroid ∅ = 0%R.
Proof. unfold inner_product_on_query. by rewrite map_to_list_empty. Qed.

Lemma inner_product_insert_query (centroid query_vec : gmap term R)
    (word : term) (x : R) :
  query_vec !! word = None →
  inner_product_on_query centroid (<[word := x]> query_vec)
  = (x * default 0 (centroid !! word)
     + inner_product_on_query centroid query_vec)%R.
Proof.
  intros Hnew. unfold inner_product_on_query.
  rewrite (sum_perm _ _ (fmap_Permutation _ _ _
             (map_to_list_insert query_vec word x Hnew))).
  by rewrite fmap_cons, sum_cons.
Qed.

Lemma inner_product_insert_centroid (centroid query_vec : gmap term R)
    (word : term) (x : R) :
  centroid !! word = None →
  inner_product_on_query (<[word := x]> centroid) query_vec
  = (inner_product_on_query centroid query_vec
     + default 0 (query_vec !! word) * x)%R.
Proof.
  intros Hnew.
  induction query_vec as [|v y q Hq IH] using map_ind.
  - rewrite !inner_product_empty_query, lookup_empty. cbn. lra.
  - rewrite !inner_product_insert_query, IH by done.
    destruct (decide (v = word)) as [->|Hne].
    + rewrite !lookup_insert_eq, Hnew, Hq. cbn. lra.
    + rewrite !lookup_insert_ne by done. lra.
Qed.

Lemma inner_product_symmetric (centroid query_vec : gmap term R) :
  inner_product_on_query centroid query_vec
  = inner_product_on_query query_vec centroid.
Proof.
  induction centroid as [|w x c Hc IH] using map_ind.
  - by rewrite inner_product_empty_centroid, inner_product_empty_query.
  - rewrite inner_product_insert_centroid, inner_product_insert_query, IH
      by done. lra.
Qed.

(** X10: [get_distance] is symmetric: the query vector scored against the
    centroid gives what the centroid scored against the query vector
    gives; in particular an empty query vector scores [0]. *)
Theorem get_distance_symmetric (centroid query_vec : gmap term R) :
  get_distance centroid query_vec = get_distance query_vec centroid
  ∧ get_distance centroid ∅ = Ok 0%R.
Proof.
  split.
  - by rewrite !get_distance_ok, inner_product_symmetric.
  - by rewrite get_distance_ok, inner_product_empty_query.
Qed.

Lemma sum_nonneg (l : list R) : Forall (λ x, (0 <= x)%R) l → (0 <= Num.sum l)%R.
Proof.
  induction 1 as [|x l Hx _ IH]; [rewrite sum_nil; lra|].
  rewrite sum_cons. lra.
Qed.

Lemma inner_product_nonneg (centroid query_vec : gmap term R) :
  map_Forall (λ _ x, (0 <= x)%R) centroid →
  map_Forall (λ _ x, (0 <= x)%R) query_vec →
  (0 <= inner_product_on_query centroid query_vec)%R.
Proof.
  intros Hc Hq. unfold inner_product_on_query.
  apply sum_nonneg, Forall_fmap, Forall_forall. intros [w q] Hin.
  apply elem_of_map_to_list in Hin. cbn.
  apply Rmult_le_pos; [exact (Hq w q Hin)|].
  destruct (centroid !! w) as [x|] eqn:E; cbn; [exact (Hc w x E)|lra].
Qed.

(** X11: between a centroid and a query vector none of whose entries is
    negative, the distance is not negative. *)
Theorem get_distance_nonneg (centroid query_vec : gmap term R) :
  map_Forall (λ _ x, (0 <= x)%R) centroid →
  map_Forall (λ _ x, (0 <= x)%R) query_vec →
  ∃ d : R, get_distance centroid query_vec = Ok d ∧ (0 <= d)%R.
Proof.
  intros Hc Hq. eexists. split; [apply get_distance_ok|].
  by apply inner_product_nonneg.
Qed.

Lemma get_distance_nonneg_singletons :
  ∃ d : R,
    get_distance {[ ["a"%string] := 2%R ]} {[ ["a"%string] := 1%R ]} = Ok d
    ∧ (0 <= d)%R.
Proof.
  apply get_distance_nonneg.
  - apply map_Forall_singleton. lra.
  - apply map_Forall_singleton. lra.
Defined.

(** ** Statements in sequence keep what each statement keeps *)

Lemma and_then_preserves (I : classifier → Prop) (m1 m2 : method unit) :
  (∀ self, I self → I (m1 self).1) →
  (∀ self, I self → I (m2 self).1) →
  ∀ self, I self → I (and_then m1 m2 self).1.
Proof.
  intros H1 H2 self HI. unfold and_then.
  specialize (H1 self HI). destruct (m1 self) as [self' [[]|e]]; cbn in *.
  - by apply H2.
  - done.
Qed.

Lemma for_each_preserves {A} (I : classifier → Prop) (l : list A)
    (body : A → method unit) :
  (∀ x self, I self → I (body x self).1) →
  ∀ self, I self → I (for_each l body self).1.
Proof.
  intros Hbody. induction l as [|x l IH]; intros self HI; [done|].
  cbn [for_each]. apply (and_then_preserves I); auto.
Qed.

(** ** Training never fills a centroid *)

Lemma vocab_adds_keep_centroids (n : order) (ngrams : document)
    (self : classifier) :
  pos_centroid (foldl (vocab_add n) self ngrams) = pos_centroid self
  ∧ neg_centroid (foldl (vocab_add n) self ngrams) = neg_centroid self.
Proof.
  revert self. induction ngrams as [|g ngrams IH]; intros self; [done|].
  cbn [foldl]. destruct (IH (vocab_add n self g)) as [-> ->]. done.
Qed.

Lemma documents_append_centroids (cls : bool) (n : order) (ngrams : document)
    (self : classifier) :
  pos_centroid (documents_append cls n ngrams self) = pos_centroid self
  ∧ neg_centroid (documents_append cls n ngrams self) = neg_centroid self.
Proof. by destruct cls. Qed.

Lemma assign_pos_centroid_no_entries (n : order) (self : classifier) :
  no_centroid_entries self →
  no_centroid_entries (assign_pos_centroid n self).1.
Proof.
  intros Hs. unfold assign_pos_centroid.
  destruct (get_centroid _ _) as [c|e] eqn:E; [|done].
  apply get_centroid_only_empty in E as ->. cbn.
  intros m. destruct (Hs m) as [Hp Hn]. split; [|done].
  cbn. rewrite at_set_order. by case_decide.
Qed.

Lemma assign_neg_centroid_no_entries (n : order) (self : classifier) :
  no_centroid_entries self →
  no_centroid_entries (assign_neg_centroid n self).1.
Proof.
  intros Hs. unfold assign_neg_centroid.
  destruct (get_centroid _ _) as [c|e] eqn:E; [|done].
  apply get_centroid_only_empty in E as ->. cbn.
  intros m. destruct (Hs m) as [Hp Hn]. split; [done|].
  cbn. rewrite at_set_order. by case_decide.
Qed.

Section TrainedState.

Variable extract_words : string → list string.
Variable get_ngrams : nat → list string → document.

Lemma add_example_centroids (cls : bool) (message : string)
    (self : classifier) :
  pos_centroid (_add_example extract_words get_ngrams cls message self)
  = pos_centroid self
  ∧ neg_centroid (_add_example extract_words get_ngrams cls message self)
    = neg_centroid self.
Proof.
  unfold _add_example.
  destruct (decide (extract_words message = [])) as [E|_]; [done|].
  cbn [foldl orders].
  repeat
    (match goal with
     | |- context [foldl (vocab_add ?n) ?s ?g] =>
         destruct (vocab_adds_keep_centroids n g s) as [-> ->]
     end;
     match goal with
     | |- context [documents_append ?c ?n ?g ?s] =>
         destruct (documents_append_centroids c n g s) as [-> ->]
     end).
  done.
Qed.

Lemma add_examples_no_entries (training_data : list (bool * string))
    (self : classifier) :
  no_centroid_entries self →
  no_centroid_entries
    (foldl (λ self '(cls, message),
              _add_example extract_words get_ngrams cls message self)
           self training_data).
Proof.
  revert self. induction training_data as [|[cls message] td IH];
    intros self Hs; [done|].
  cbn [foldl]. apply IH. intros n. unfold no_centroid_entries in Hs.
  destruct (add_example_centroids cls message self) as [-> ->]. apply Hs.
Qed.

Lemma train_no_entries (training_data : list (bool * string))
    (self : classifier) :
  no_centroid_entries self →
  no_centroid_entries
    (train extract_words get_ngrams training_data self).1.
Proof.
  intros Hs. unfold train.
  apply (for_each_preserves no_centroid_entries).
  - intros n. apply (and_then_preserves no_centroid_entries).
    + apply assign_pos_centroid_no_entries.
    + apply assign_neg_centroid_no_entries.
  - by apply add_examples_no_entries.
Qed.

Lemma train_all_no_entries (calls : list (list (bool * string)))
    (self : classifier) :
  no_centroid_entries self →
  no_centroid_entries (train_all extract_words get_ngrams calls self).
Proof.
  revert self. induction calls as [|td calls IH]; intros self Hs; [done|].
  cbn [train_all foldl]. apply IH. by apply train_no_entries.
Qed.

Lemma fresh_no_entries : no_centroid_entries fresh.
Proof. intros m. by destruct m. Qed.

(** X12: however often and on whatever examples a new classifier is
    trained, each of its six centroids remains the empty dict. *)
Theorem centroids_stay_empty (calls : list (list (bool * string)))
    (n : order) :
  at_order (pos_centroid (train_all extract_words get_ngrams calls fresh)) n
  = ∅
  ∧ at_order (neg_centroid (train_all extract_words get_ngrams calls fresh)) n
    = ∅.
Proof. apply train_all_no_entries, fresh_no_entries. Qed.

Lemma weighted_inner_product_no_entries
    (query_vecs : by_order (gmap term R)) (weights : by_order R)
    (centroid : by_order (gmap term R)) :
  (∀ n, at_order centroid n = ∅) →
  weighted_inner_product query_vecs weights centroid = 0%R.
Proof.
  intros Hc. unfold weighted_inner_product.
  apply sum_zeros, Forall_fmap, Forall_forall. intros n _. cbn.
  rewrite Hc, inner_product_empty_centroid. lra.
Qed.

Lemma classify_no_entries (P : params) (self : classifier)
    (message : string) :
  no_centroid_entries self →
  extract_words message ≠ [] →
  (1 + weight_bigrams P + weight_trigrams P ≠ 0)%R →
  classify extract_words get_ngrams P self message
  = Ok (Num.gtb 1 (threshold P), 0%R).
Proof.
  intros Hs Hwords Htot. rewrite classify_unfold by done.
  rewrite get_weights_defined by done. result_step.
  rewrite !weighted_inner_product_no_entries by (intros n; apply Hs).
  replace ((0 + Num.EPSILON))%R with Num.EPSILON by lra.
  rewrite div_nonzero by (unfold Num.EPSILON; lra). result_step.
  replace (Num.EPSILON / Num.EPSILON)%R with 1%R
    by (unfold Num.EPSILON; field).
  rewrite log_pos by lra. result_step. by rewrite ln_1.
Qed.

(** X13: a classifier that has only been through its own training gives
    the same answer to every message with a word: the pair
    [(1 > threshold, 0.0)], provided the raw order weights do not add up
    to zero. *)
Theorem classify_after_training (P : params)
    (calls : list (list (bool * string))) (message : string) :
  extract_words message ≠ [] →
  (1 + weight_bigrams P + weight_trigrams P ≠ 0)%R →
  classify extract_words get_ngrams P
           (train_all extract_words get_ngrams calls fresh) message
  = Ok (Num.gtb 1 (threshold P), 0%R).
Proof.
  intros Hwords Htot. apply classify_no_entries; [|done|done].
  apply train_all_no_entries, fresh_no_entries.
Qed.

(** X14: every call of [train] on a classifier that has only been through
    its own training raises [ValueError], the constructor's call included,
    as long as the tokenizer gives at least one unigram for a message with
    words. *)
Theorem train_always_raises (calls : list (list (bool * string)))
    (training_data : list (bool * string)) :
  (∀ words, words ≠ [] → get_ngrams 1 words ≠ []) →
  (train extract_words get_ngrams training_data
         (train_all extract_words get_ngrams calls fresh)).2
  = Raise ValueError
  ∧ (__init__ extract_words get_ngrams training_data).2 = Raise ValueError.
Proof.
  intros Huni. split; [|by apply init_raises].
  apply train_raises; [done|].
  assert (H : ∀ self,
            Forall (λ doc, doc ≠ []) (at_order (pos_documents self) O1) →
            Forall (λ doc, doc ≠ [])
              (at_order (pos_documents
                 (train_all extract_words get_ngrams calls self)) O1)).
  { induction calls as [|td calls IH]; intros self Hs; [done|].
    cbn [train_all foldl]. apply IH.
    change (pos_documents ?s) with (documents_of true s).
    rewrite train_documents. by apply add_examples_unigrams. }
  apply H. cbn. constructor.
Qed.

End TrainedState.

Lemma classify_after_training_good :
  classify space_words sliding_ngrams default_params
    (train_all space_words sliding_ngrams
       [[(true, "good good"); (false, "bad bad")]]%string fresh) "good"
  = Ok (Num.gtb 1 (threshold default_params), 0%R).
Proof.
  apply classify_after_training.
  - by vm_compute.
  - cbn. lra.
Defined.

Lemma train_always_raises_sliding :
  (train space_words sliding_ngrams [(true, "good")]%string
     (train_all space_words sliding_ngrams
        [[(true, "good good"); (false, "bad bad")]]%string fresh)).2
  = Raise ValueError
  ∧ (__init__ space_words sliding_ngrams [(true, "good")]%string).2
    = Raise ValueError.
Proof.
  apply train_always_raises. apply sliding_unigrams_of_words.
Defined.

(** ** [get_weights] and [classify]: every outcome *)

(** X15: when neither the bigram weight nor the trigram weight is
    negative, [get_weights] returns three weights between [0] and [1], the
    unigram weight being positive. *)
Theorem get_weights_bounds (P : params) :
  (0 <= weight_bigrams P)%R → (0 <= weight_trigrams P)%R →
  ∃ w : by_order R,
    get_weights P = Ok w
    ∧ (0 < order1 w <= 1)%R
    ∧ (0 <= order2 w < 1)%R
    ∧ (0 <= order3 w < 1)%R.
Proof.
  intros Hb Ht. eexists. split; [apply get_weights_defined; lra|].
  cbn [order1 order2 order3].
  set (total := (1 + weight_bigrams P + weight_trigrams P)%R).
  assert (Htot : (1 <= total)%R) by (unfold total; lra).
  assert (Hinv : (0 < / total)%R) by (apply Rinv_0_lt_compat; lra).
  assert (Hone : (total * / total = 1)%R) by (apply Rinv_r; lra).
  unfold Rdiv. unfold total in *. repeat split; nra.
Qed.

Lemma get_weights_bounds_default :
  ∃ w : by_order R,
    get_weights default_params = Ok w
    ∧ (0 < order1 w <= 1)%R
    ∧ (0 <= order2 w < 1)%R
    ∧ (0 <= order3 w < 1)%R.
Proof. apply get_weights_bounds; cbn; lra. Defined.

Lemma log_count_vec_nonneg (ngrams : document) :
  map_Forall (λ _ x, (0 <= x)%R) (log_count_vec ngrams).
Proof.
  intros word x Hx. rewrite log_count_vec_lookup in Hx.
  case_decide as Hin; [|done]. injection Hx as <-.
  apply occurrences_positive in Hin.
  pose proof (log10_count_nonneg _ Hin). cbn. lra.
Qed.

Lemma weighted_inner_product_nonneg (query_vecs : by_order (gmap term R))
    (weights : by_order R) (centroid : by_order (gmap term R)) :
  (∀ n, map_Forall (λ _ x, (0 <= x)%R) (at_order query_vecs n)) →
  (∀ n, (0 <= at_order weights n)%R) →
  (∀ n, map_Forall (λ _ x, (0 <= x)%R) (at_order centroid n)) →
  (0 <= weighted_inner_product query_vecs weights centroid)%R.
Proof.
  intros Hq Hw Hc. unfold weighted_inner_product.
  apply sum_nonneg, Forall_fmap, Forall_forall. intros n _. cbn.
  apply Rmult_le_pos; [by apply inner_product_nonneg|apply Hw].
Qed.

Section ClassifyOutcome.

Variable extract_words : string → list string.
Variable get_ngrams : nat → list string → document.

Lemma classify_returns (P : params) (self : classifier) (message : string) :
  extract_words message ≠ [] →
  let total := (1 + weight_bigrams P + weight_trigrams P)%R in
  let weights :=
    ByOrder (1 / total)%R (weight_bigrams P / total)%R
            (weight_trigrams P / total)%R in
  let query_vecs :=
    order_init (λ n, log_count_vec
                       (get_ngrams (order_to_nat n)
                                   (extract_words message))) in
  let pos := weighted_inner_product query_vecs weights (pos_centroid self) in
  let neg := weighted_inner_product query_vecs weights (neg_centroid self) in
  let diff := ((pos + Num.EPSILON) / (neg + Num.EPSILON))%R in
  total ≠ 0%R → (neg + Num.EPSILON)%R ≠ 0%R → (0 < diff)%R →
  classify extract_words get_ngrams P self message
  = Ok (Num.gtb diff (threshold P), ln diff).
Proof.
  intros Hwords total weights query_vecs pos neg diff Htot Hneg Hdiff.
  rewrite classify_unfold by done.
  rewrite get_weights_defined by done. result_step.
  fold total. fold weights. fold query_vecs. fold pos. fold neg.
  rewrite div_nonzero by done. result_step.
  fold diff. rewrite log_pos by done. reflexivity.
Qed.

(** X16: on a message with a word [classify] raises [ZeroDivisionError]
    when the raw order weights add up to zero or when the negative
    weighted distance plus [ε] is zero, raises [ValueError] when the ratio
    [diff] is not positive, and returns [(diff > threshold, ln diff)] in
    every other case; it raises nothing else. *)
Theorem classify_outcome (P : params) (self : classifier)
    (message : string) :
  extract_words message ≠ [] →
  let total := (1 + weight_bigrams P + weight_trigrams P)%R in
  let weights :=
    ByOrder (1 / total)%R (weight_bigrams P / total)%R
            (weight_trigrams P / total)%R in
  let query_vecs :=
    order_init (λ n, log_count_vec
                       (get_ngrams (order_to_nat n)
                                   (extract_words message))) in
  let pos := weighted_inner_product query_vecs weights (pos_centroid self) in
  let neg := weighted_inner_product query_vecs weights (neg_centroid self) in
  let diff := ((pos + Num.EPSILON) / (neg + Num.EPSILON))%R in
  classify extract_words get_ngrams P self message
  = if Req_dec_T total 0 then Raise ZeroDivisionError
    else if Req_dec_T (neg + Num.EPSILON) 0 then Raise ZeroDivisionError
    else if Rle_dec diff 0 then Raise ValueError
    else Ok (Num.gtb diff (threshold P), ln diff).
Proof.
  intros Hwords total weights query_vecs pos neg diff.
  destruct (Req_dec_T total 0) as [Htot|Htot].
  { by apply classify_zero_total. }
  destruct (Req_dec_T (neg + Num.EPSILON) 0) as [Hneg|Hneg].
  { by apply classify_zero_denominator. }
  destruct (Rle_dec diff 0) as [Hdiff|Hdiff].
  { by apply classify_nonpositive_ratio. }
  apply classify_returns; [done|done|done|]. fold total weights query_vecs pos neg diff. lra.
Qed.

(** X17: when neither hyper-parameter weight is negative and no centroid
    holds a negative value, [classify] returns a pair on every message
    with a word. *)
Theorem classify_total_on_nonneg (P : params) (self : classifier)
    (message : string) :
  extract_words message ≠ [] →
  (0 <= weight_bigrams P)%R → (0 <= weight_trigrams P)%R →
  (∀ n, map_Forall (λ _ x, (0 <= x)%R) (at_order (pos_centroid self) n)) →
  (∀ n, map_Forall (λ _ x, (0 <= x)%R) (at_order (neg_centroid self) n)) →
  ∃ (decision : bool) (score : R),
    classify extract_words get_ngrams P self message = Ok (decision, score).
Proof.
  intros Hwords Hb Ht Hp Hn.
  set (total := (1 + weight_bigrams P + weight_trigrams P)%R).
  set (weights := ByOrder (1 / total)%R (weight_bigrams P / total)%R
                          (weight_trigrams P / total)%R).
  set (query_vecs :=
         order_init (λ n, log_count_vec
                            (get_ngrams (order_to_nat n)
                                        (extract_words message)))).
  assert (Htot : (1 <= total)%R) by (unfold total; lra).
  assert (Hinv : (0 < / total)%R) by (apply Rinv_0_lt_compat; lra).
  assert (Hw : ∀ n, (0 <= at_order weights n)%R).
  { intros n. unfold weights, Rdiv. destruct n; cbn; nra. }
  assert (Hq : ∀ n, map_Forall (λ _ x, (0 <= x)%R) (at_order query_vecs n)).
  { intros n. destruct n; apply log_count_vec_nonneg. }
  pose proof (weighted_inner_product_nonneg query_vecs weights
                (pos_centroid self) Hq Hw Hp) as Hpos.
  pose proof (weighted_inner_product_nonneg query_vecs weights
                (neg_centroid self) Hq Hw Hn) as Hneg.
  assert (Heps : (0 < Num.EPSILON)%R) by (unfold Num.EPSILON; lra).
  do 2 eexists. apply classify_returns; [done|..];
    fold total; fold weights; fold query_vecs.
  - lra.
  - lra.
  - apply Rmult_lt_0_compat; [lra|]. apply Rinv_0_lt_compat. lra.
Qed.

End ClassifyOutcome.

Lemma classify_outcome_fresh_good :
  classify space_words sliding_ngrams default_params fresh "good"
  ≠ Raise KeyError.
Proof.
  assert (Hwords : space_words "good" ≠ []) by (by vm_compute).
  pose proof (classify_outcome space_words sliding_ngrams default_params
                fresh "good" Hwords) as Ho.
  cbv zeta in Ho. rewrite Ho.
  repeat match goal with
         | |- context [Req_dec_T ?a ?b] => destruct (Req_dec_T a b)
         | |- context [Rle_dec ?a ?b] => destruct (Rle_dec a b)
         end; discriminate.
Defined.

Lemma classify_total_on_nonneg_fresh_good :
  ∃ (decision : bool) (score : R),
    classify space_words sliding_ngrams default_params fresh "good"
    = Ok (decision, score).
Proof.
  apply classify_total_on_nonneg.
  - by vm_compute.
  - cbn. lra.
  - cbn. lra.
  - intros n. destruct n; apply map_Forall_empty.
  - intros n. destruct n; apply map_Forall_empty.
Defined.

(** ** Training: the vocabulary and the growth of the lists *)

Lemma vocab_adds_vocab (n m : order) (ngrams : document)
    (self : classifier) :
  at_order (vocab (foldl (vocab_add n) self ngrams)) m
  = if decide (m = n)
    then list_to_set ngrams ∪ at_order (vocab self) n
    else at_order (vocab self) m.
Proof.
  revert self. induction ngrams as [|g ngrams IH]; intros self.
  - cbn. case_decide as E; [rewrite E; set_solver|done].
  - cbn [foldl]. rewrite IH. cbn [vocab vocab_add]. rewrite !at_set_order.
    case_decide as E; [|done].
    rewrite decide_True by done. set_solver.
Qed.

Lemma documents_append_vocab (cls : bool) (n : order) (ngrams : document)
    (self : classifier) :
  vocab (documents_append cls n ngrams self) = vocab self.
Proof. by destruct cls. Qed.

Section VocabularyFacts.

Variable extract_words : string → list string.
Variable get_ngrams : nat → list string → document.

Lemma add_example_vocab (cls : bool) (message : string) (self : classifier)
    (n : order) :
  at_order (vocab (_add_example extract_words get_ngrams cls message self)) n
  = if decide (extract_words message = []) then at_order (vocab self) n
    else list_to_set (get_ngrams (order_to_nat n) (extract_words message))
         ∪ at_order (vocab self) n.
Proof.
  unfold _add_example.
  destruct (decide (extract_words message = [])) as [E|_]; [done|].
  cbn [foldl orders].
  rewrite !vocab_adds_vocab, !documents_append_vocab,
    !vocab_adds_vocab, !documents_append_vocab,
    !vocab_adds_vocab, !documents_append_vocab.
  destruct n; repeat case_decide; done.
Qed.

Lemma add_example_covers (cls : bool) (message : string)
    (self : classifier) :
  vocab_covers_documents self →
  vocab_covers_documents
    (_add_example extract_words get_ngrams cls message self).
Proof.
  intros Hs c n doc g Hdoc Hg. rewrite add_example_vocab.
  destruct (decide (extract_words message = [])) as [E|Hne].
  { rewrite add_example_no_words in Hdoc by done. by apply (Hs c n doc). }
  destruct (decide (c = cls)) as [->|Hc].
  - rewrite add_example_same_class in Hdoc by done.
    apply elem_of_app in Hdoc as [Hdoc|Hdoc].
    + apply elem_of_union_r. by apply (Hs cls n doc).
    + apply list_elem_of_singleton in Hdoc as ->.
      by apply elem_of_union_l, elem_of_list_to_set.
  - replace c with (negb cls) in * by (by destruct c, cls).
    rewrite add_example_other_class in Hdoc.
    apply elem_of_union_r. by apply (Hs (negb cls) n doc).
Qed.

Lemma add_examples_covers (training_data : list (bool * string))
    (self : classifier) :
  vocab_covers_documents self →
  vocab_covers_documents
    (foldl (λ self '(cls, message),
              _add_example extract_words get_ngrams cls message self)
           self training_data).
Proof.
  revert self. induction training_data as [|[cls message] td IH];
    intros self Hs; [done|].
  cbn [foldl]. by apply IH, add_example_covers.
Qed.

Lemma assign_pos_centroid_covers (n : order) (self : classifier) :
  vocab_covers_documents self →
  vocab_covers_documents (assign_pos_centroid n self).1.
Proof.
  intros Hs. unfold assign_pos_centroid.
  destruct (get_centroid _ _); [|done].
  intros c m doc g. specialize (Hs c m doc g). by destruct c.
Qed.

Lemma assign_neg_centroid_covers (n : order) (self : classifier) :
  vocab_covers_documents self →
  vocab_covers_documents (assign_neg_centroid n self).1.
Proof.
  intros Hs. unfold assign_neg_centroid.
  destruct (get_centroid _ _); [|done].
  intros c m doc g. specialize (Hs c m doc g). by destruct c.
Qed.

Lemma train_covers (training_data : list (bool * string))
    (self : classifier) :
  vocab_covers_documents self →
  vocab_covers_documents
    (train extract_words get_ngrams training_data self).1.
Proof.
  intros Hs. unfold train.
  apply (for_each_preserves vocab_covers_documents).
  - intros n. apply (and_then_preserves vocab_covers_documents).
    + apply assign_pos_centroid_covers.
    + apply assign_neg_centroid_covers.
  - by apply add_examples_covers.
Qed.

(** X18: after any sequence of [train] calls on a new classifier, every
    n-gram of every stored document, of either class and at any order, is
    in the vocabulary of that order. *)
Theorem vocabulary_covers_documents (calls : list (list (bool * string)))
    (c : bool) (n : order) (doc : document) (g : term) :
  doc ∈ at_order (documents_of c
                    (train_all extract_words get_ngrams calls fresh)) n →
  g ∈ doc →
  g ∈ at_order (vocab (train_all extract_words get_ngrams calls fresh)) n.
Proof.
  assert (H : ∀ self, vocab_covers_documents self →
              vocab_covers_documents
                (train_all extract_words get_ngrams calls self)).
  { induction calls as [|td calls IH]; intros self Hs; [done|].
    cbn [train_all foldl]. by apply IH, train_covers. }
  apply H. intros c' n' doc' g' Hdoc.
  destruct c', n'; by apply elem_of_nil in Hdoc.
Qed.

Lemma train_vocab (training_data : list (bool * string))
    (self : classifier) :
  vocab (train extract_words get_ngrams training_data self).1
  = vocab (foldl (λ self '(cls, message),
                    _add_example extract_words get_ngrams cls message self)
                 self training_data).
Proof.
  unfold train.
  set (s := foldl _ self training_data).
  apply (for_each_preserves (λ s', vocab s' = vocab s)); [|done].
  intros n. apply (and_then_preserves (λ s', vocab s' = vocab s)).
  - intros s' Hs'. unfold assign_pos_centroid.
    by destruct (get_centroid _ _).
  - intros s' Hs'. unfold assign_neg_centroid.
    by destruct (get_centroid _ _).
Qed.

Lemma add_examples_grow (training_data : list (bool * string))
    (self : classifier) (c : bool) (n : order) :
  at_order (documents_of c self) n
    `prefix_of`
    at_order (documents_of c
                (foldl (λ self '(cls, message),
                          _add_example extract_words get_ngrams cls message self)
                       self training_data)) n
  ∧ at_order (vocab self) n
    ⊆ at_order (vocab
                  (foldl (λ self '(cls, message),
                            _add_example extract_words get_ngrams cls message self)
                         self training_data)) n.
Proof.
  revert self. induction training_data as [|[cls message] td IH];
    intros self; [done|].
  cbn [foldl].
  destruct (IH (_add_example extract_words get_ngrams cls message self))
    as [Hd Hv].
  split.
  - etrans; [|exact Hd].
    destruct (decide (extract_words message = [])) as [E|Hne].
    { by rewrite add_example_no_words. }
    destruct (decide (c = cls)) as [->|Hc].
    + rewrite add_example_same_class by done. by apply prefix_app_r.
    + replace c with (negb cls) by (by destruct c, cls).
      by rewrite add_example_other_class.
  - etrans; [|exact Hv]. rewrite add_example_vocab.
    case_decide; set_solver.
Qed.

(** X19: [train] only adds: the documents a class holds at an order before
    the call are a prefix of those it holds after it, and the vocabulary
    of an order before the call is included in the one after it, whether
    or not the call raises. *)
Theorem train_only_adds (training_data : list (bool * string))
    (self : classifier) (c : bool) (n : order) :
  at_order (documents_of c self) n
    `prefix_of`
    at_order (documents_of c
                (train extract_words get_ngrams training_data self).1) n
  ∧ at_order (vocab self) n
    ⊆ at_order (vocab (train extract_words get_ngrams training_data self).1) n.
Proof.
  rewrite train_documents, train_vocab. apply add_examples_grow.
Qed.

(** X20: a call of [train] lengthens each of the three document lists of
    a class by the number of examples of that class from which at least
    one word is extracted; examples without words add nothing. *)
Theorem train_counts_examples (training_data : list (bool * string))
    (self : classifier) (c : bool) (n : order) :
  length (at_order (documents_of c
            (train extract_words get_ngrams training_data self).1) n)
  = length (at_order (documents_of c self) n)
    + length (filter (λ ex, ex.1 = c ∧ extract_words ex.2 ≠ [])
                     training_data).
Proof.
  rewrite train_documents.
  revert self. induction training_data as [|[cls message] td IH];
    intros self; [cbn; lia|].
  cbn [foldl]. rewrite IH, add_example_length, filter_cons. cbn [fst snd].
  destruct (decide (extract_words message = [])) as [E|Hne].
  - rewrite decide_False by tauto. lia.
  - destruct (decide (c = cls)) as [->|Hc].
    + rewrite decide_True by done. cbn [length]. lia.
    + rewrite decide_False by (intros [? ?]; congruence). lia.
Qed.

End VocabularyFacts.

Lemma vocabulary_covers_documents_good :
  ["good"%string; "good"%string]
  ∈ at_order (vocab (train_all space_words sliding_ngrams
                       [[(true, "good good"); (false, "bad")]]%string fresh))
             O2.
Proof.
  apply (vocabulary_covers_documents space_words sliding_ngrams
           [[(true, "good good"); (false, "bad")]]%string true O2
           [["good"%string; "good"%string]]).
  - unfold train_all. cbn [foldl]. rewrite train_documents.
    vm_compute. left.
  - left.
Defined.

(** X21: an example from which at least one word is extracted adds to the
    vocabulary of each order the n-grams of the message at that order and
    nothing else; an example without words leaves the vocabulary as it
    was. *)
Theorem add_example_vocabulary
    (extract_words : string → list string)
    (get_ngrams : nat → list string → document)
    (cls : bool) (message : string) (self : classifier) (n : order)
    (g : term) :
  g ∈ at_order (vocab (_add_example extract_words get_ngrams cls message
                         self)) n
  ↔ g ∈ at_order (vocab self) n
    ∨ (extract_words message ≠ []
       ∧ g ∈ get_ngrams (order_to_nat n) (extract_words message)).
Proof.
  rewrite add_example_vocab. case_decide as E.
  - split; [by left|]. intros [H|[H _]]; [done|by destruct H].
  - rewrite elem_of_union, elem_of_list_to_set. tauto.
Qed.
